(** * Flash-loan arbitrage: settlement contract and off-chain bot

    A shallow embedding of
    - the [FlashArbitrage] settlement contract (Solidity ^0.8.19),
    - the [ProductionArbitrageBot] class of [scripts/bot.js],
    and the properties of the design specification established on them.

    Conventions.
    - On-chain [uint256] and [address] values are binary naturals ([N]);
      Solidity 0.8 arithmetic is checked, so an addition whose result does
      not fit 256 bits raises [Panic 0x11] instead of wrapping.
    - JavaScript [BigInt] values are unbounded signed integers ([Z]); BigInt
      division truncates toward zero ([Z.quot]).
    - Byte strings are [list byte].
    - A transaction either succeeds with a new chain state or reverts; a
      reverted transaction persists nothing. *)

From Stdlib Require Import NArith ZArith QArith Lia List.
From Stdlib Require Import Strings.Byte.
From stdpp Require Import base option list strings gmap.

Local Open Scope N_scope.

(* ===================================================================== *)
(** * Part I: definitions                                                 *)
(* ===================================================================== *)

(** ** The contract ABI codec for [(uint256, address[], bytes[])]

    [ethers.AbiCoder.defaultAbiCoder().encode] (bot side) and Solidity's
    [abi.decode] (contract side) are library code; both implement the
    Contract ABI specification, which is what is written out here: 32-byte
    big-endian words, a head of values or offsets, and a tail of
    length-prefixed dynamic data padded to a multiple of 32 bytes. *)
Module ABI.

#[global] Instance byte_eq_dec : EqDecision byte := Byte.byte_eq_dec.

Definition byte_of_N (n : N) : byte :=
  default x00 (Byte.of_N (n mod 256)).

(** [k] big-endian bytes of [n] (the low [8k] bits). *)
Fixpoint be_bytes (k : nat) (n : N) : list byte :=
  match k with
  | O => []
  | S k' => be_bytes k' (n / 256) ++ [byte_of_N n]
  end.

Definition be_value (l : list byte) : N :=
  fold_left (fun acc b => acc * 256 + Byte.to_N b) l 0.

Definition word (n : N) : list byte := be_bytes 32 n.

Definition len (l : list byte) : N := N.of_nat (length l).

Definition UINT256_MAX : N := 2 ^ 256 - 1.
Definition ADDRESS_MAX : N := 2 ^ 160 - 1.
(** Bound the generated decoder puts on every offset and length. *)
Definition UINT64_MAX : N := 0xffffffffffffffff.

(** *** Encoding *)

Definition padding (n : nat) : nat := (32 - n mod 32) mod 32.

Definition pad_right (b : list byte) : list byte :=
  b ++ replicate (padding (length b)) x00.

(** [bytes]: length word, then the data right-padded with zeroes. *)
Definition enc_bytes (b : list byte) : list byte :=
  word (len b) ++ pad_right b.

(** [address[]]: length word, then one left-padded word per address. *)
Definition enc_address_array (l : list N) : list byte :=
  word (N.of_nat (length l)) ++ concat (map word l).

(** Head of a [bytes[]]: one offset per element, counted from the start of
    the head. *)
Fixpoint heads (off : N) (l : list (list byte)) : list byte :=
  match l with
  | [] => []
  | b :: l' => word off ++ heads (off + len (enc_bytes b)) l'
  end.

Definition tails (l : list (list byte)) : list byte :=
  concat (map enc_bytes l).

Definition enc_bytes_array (l : list (list byte)) : list byte :=
  word (N.of_nat (length l)) ++ heads (32 * N.of_nat (length l)) l ++ tails l.

(** The tuple: a static word and two offsets, then the two arrays. *)
Definition encode (minProfit : N) (path : list N) (swapData : list (list byte))
  : list byte :=
  word minProfit ++ word 96 ++ word (96 + len (enc_address_array path))
    ++ enc_address_array path ++ enc_bytes_array swapData.

(** *** Decoding, with the bounds checks of the generated decoder *)

(** Read the word at [pos]; nothing if it is not wholly inside [data]. *)
Definition load (data : list byte) (pos : N) : option N :=
  if decide (pos + 32 <= len data)
  then Some (be_value (take 32 (drop (N.to_nat pos) data)))
  else None.

Definition decode_bytes (data : list byte) (pos : N) : option (list byte) :=
  n ← load data pos;
  if decide (n <= UINT64_MAX /\ pos + 32 + n <= len data)
  then Some (take (N.to_nat n) (drop (N.to_nat (pos + 32)) data))
  else None.

Fixpoint read_addresses (data : list byte) (src : N) (count : nat)
  : option (list N) :=
  match count with
  | O => Some []
  | S c =>
      w ← load data src;
      if decide (w <= ADDRESS_MAX)
      then rest ← read_addresses data (src + 32) c; Some (w :: rest)
      else None
  end.

Definition decode_address_array (data : list byte) (pos : N)
  : option (list N) :=
  n ← load data pos;
  if decide (n <= UINT64_MAX /\ pos + 32 + 32 * n <= len data)
  then read_addresses data (pos + 32) (N.to_nat n)
  else None.

Fixpoint read_bytes_elements (data : list byte) (base src : N) (count : nat)
  : option (list (list byte)) :=
  match count with
  | O => Some []
  | S c =>
      off ← load data src;
      if decide (off <= UINT64_MAX)
      then b ← decode_bytes data (base + off);
           rest ← read_bytes_elements data base (src + 32) c;
           Some (b :: rest)
      else None
  end.

Definition decode_bytes_array (data : list byte) (pos : N)
  : option (list (list byte)) :=
  n ← load data pos;
  if decide (n <= UINT64_MAX /\ pos + 32 + 32 * n <= len data)
  then read_bytes_elements data (pos + 32) (pos + 32) (N.to_nat n)
  else None.

(** [abi.decode(params, (uint256, address[], bytes[]))]; [None] is a revert
    of the decoder. *)
Definition decode (data : list byte)
  : option (N * list N * list (list byte)) :=
  if decide (96 <= len data) then
    minProfit ← load data 0;
    oa ← load data 32;
    if decide (oa <= UINT64_MAX) then
      path ← decode_address_array data oa;
      ob ← load data 64;
      if decide (ob <= UINT64_MAX) then
        swapData ← decode_bytes_array data ob;
        Some (minProfit, path, swapData)
      else None
    else None
  else None.

(** [data] holds the byte string [x] at offset [pos]. *)
Definition at_pos (data : list byte) (pos : N) (x : list byte) : Prop :=
  exists pre post, data = pre ++ x ++ post /\ len pre = pos.

(** Range conditions on the values of an instruction blob. *)
Definition well_formed (minProfit : N) (path : list N)
    (swapData : list (list byte)) : Prop :=
  minProfit <= UINT256_MAX
  /\ Forall (fun a => a <= ADDRESS_MAX) path
  /\ len (encode minProfit path swapData) <= UINT64_MAX.

End ABI.

(** ** The chain: token ledgers and the event log

    The borrowed asset and DAI are external ERC-20 contracts, known to the
    repository only through the [IERC20] interface it declares. They are
    taken to be standard ledgers: [transfer] and [transferFrom] revert when
    the balance or the allowance is too small (and never report failure by
    returning [false], which the contract would ignore), [approve]
    overwrites the allowance. Balances are unbounded naturals: that a
    credit fits 256 bits is the token's own supply invariant. *)
Module Chain.

Definition address : Type := N.

Inductive event : Type :=
| DebugLog (message : string) (value : N)
| ArbitrageProfit (token : address) (profit : N)
| ArbitrageFailure (reason : string).

#[global] Instance event_eq_dec : EqDecision event.
Proof. solve_decision. Defined.

Record state : Type := mkState {
  (** keyed by (token, holder) *)
  balances : gmap (address * address) N;
  (** keyed by (token, owner, spender) *)
  allowances : gmap (address * address * address) N;
  logs : list event
}.

Definition balanceOf (st : state) (token account : address) : N :=
  default 0 (balances st !! (token, account)).

Definition allowance (st : state) (token owner spender : address) : N :=
  default 0 (allowances st !! (token, owner, spender)).

Definition set_balance (token account : address) (v : N) (st : state) : state :=
  mkState (<[(token, account) := v]> (balances st)) (allowances st) (logs st).

Definition set_allowance (token owner spender : address) (v : N) (st : state)
  : state :=
  mkState (balances st) (<[(token, owner, spender) := v]> (allowances st))
          (logs st).

Definition add_log (e : event) (st : state) : state :=
  mkState (balances st) (allowances st) (logs st ++ [e]).

(** Move [amount] of [token] from [from] to [to]. *)
Definition move (token from to : address) (amount : N) (st : state) : state :=
  let st1 := set_balance token from (balanceOf st token from - amount) st in
  set_balance token to (balanceOf st1 token to + amount) st1.

(** [IERC20(token).transfer(to, amount)] called by [sender]; [None] is a
    revert of the token. *)
Definition erc20_transfer (token sender to : address) (amount : N)
    (st : state) : option state :=
  if decide (amount <= balanceOf st token sender)
  then Some (move token sender to amount st)
  else None.

(** [IERC20(token).approve(spender, amount)] called by [sender]. *)
Definition erc20_approve (token sender spender : address) (amount : N)
    (st : state) : option state :=
  Some (set_allowance token sender spender amount st).

(** [IERC20(token).transferFrom(from, to, amount)] called by [sender]. *)
Definition erc20_transferFrom (token sender from to : address) (amount : N)
    (st : state) : option state :=
  if decide (amount <= allowance st token from sender
             /\ amount <= balanceOf st token from)
  then Some (move token from to amount
               (set_allowance token from sender
                  (allowance st token from sender - amount) st))
  else None.

End Chain.

(** ** The settlement contract [FlashArbitrage] *)
Module Contract.
Import Chain.

(** The three immutables set by the constructor, and the contract's own
    address. *)
Record config : Type := mkConfig {
  owner : address;
  pool : address;
  addressesProvider : address;
  this : address
}.

Inductive failure : Type :=
| Revert (reason : string)       (* require(..., reason) / revert(reason) *)
| Panic (code : N)               (* 0x11 overflow, 0x32 index out of range *)
| RevertNoData.                  (* decoder failure, unknown selector *)

#[global] Instance failure_eq_dec : EqDecision failure.
Proof. solve_decision. Defined.

(** What the execution did to the outside, in order. This is a ghost
    record: it is kept on failure too, although a revert undoes the
    effects, so that a failed run can be asked what it had attempted. *)
Inductive action : Type :=
| Decoded
| CallBalanceOf (token account : address)
| CallApprove (token spender : address) (amount : N)
| CallTransfer (token to : address) (amount : N)
| CallTransferFrom (token from to : address) (amount : N)
| CallTarget (index : nat) (target : address) (payload : list byte)
             (success : bool).

#[global] Instance action_eq_dec : EqDecision action.
Proof. solve_decision. Defined.

Inductive result (A : Type) : Type :=
| Ok (a : A) (st : state) (tr : list action)
| Fail (f : failure) (tr : list action).
Arguments Ok {A} a st tr.
Arguments Fail {A} f tr.

(** State, failure and trace threaded through the body of a function. *)
Definition M (A : Type) : Type := state -> list action -> result A.

#[global] Instance M_ret : MRet M := fun A a st tr => Ok a st tr.
#[global] Instance M_bind : MBind M := fun A B f m st tr =>
  match m st tr with
  | Ok a st' tr' => f a st' tr'
  | Fail e tr' => Fail e tr'
  end.

Definition fail {A : Type} (f : failure) : M A := fun _ tr => Fail f tr.

Definition require (cond : bool) (reason : string) : M unit :=
  if cond then mret tt else fail (Revert reason).

Definition emit (e : event) : M unit :=
  fun st tr => Ok tt (add_log e st) tr.

Definition trace (a : action) : M unit :=
  fun st tr => Ok tt st (tr ++ [a]).

(** Checked [uint256] addition. *)
Definition checked_add (a b : N) : M N :=
  if decide (a + b <= ABI.UINT256_MAX) then mret (a + b) else fail (Panic 0x11).

(** Checked array access. *)
Definition index {A : Type} (l : list A) (i : nat) : M A :=
  match l !! i with
  | Some x => mret x
  | None => fail (Panic 0x32)
  end.

(** A call into a token; a revert of the token bubbles up. *)
Definition token_call (a : action) (op : state -> option state) : M unit :=
  fun st tr =>
    match op st with
    | Some st' => Ok tt st' (tr ++ [a])
    | None => Fail RevertNoData (tr ++ [a])
    end.

Definition call_balanceOf (token account : address) : M N :=
  fun st tr => Ok (balanceOf st token account) st
                  (tr ++ [CallBalanceOf token account]).

Definition abi_decode (params : list byte)
  : M (N * list address * list (list byte)) :=
  match ABI.decode params with
  | Some v => _ ← trace Decoded; mret v
  | None => fail RevertNoData
  end.

Section with_targets.

(** The behaviour of the trade targets: [external_call caller target payload]
    is the low-level [target.call(payload)]; [None] when the callee reverts
    ([success = false], its effects undone). *)
Variable external_call : address -> address -> list byte -> state -> option state.

Variable cfg : config.

Definition low_level_call (i : nat) (target : address) (payload : list byte)
  : M bool :=
  fun st tr =>
    match external_call (this cfg) target payload st with
    | Some st' => Ok true st' (tr ++ [CallTarget i target payload true])
    | None => Ok false st (tr ++ [CallTarget i target payload false])
    end.

(** [for (uint i = 0; i < swapData.length; i++) ...], from index [i] with
    [n] iterations to go. *)
Fixpoint trade_loop (path : list address) (swapData : list (list byte))
    (i n : nat) : M unit :=
  match n with
  | O => mret tt
  | S n' =>
      target ← index path i;
      payload ← index swapData i;
      success ← low_level_call i target payload;
      if success : bool
      then trade_loop path swapData (S i) n'
      else _ ← emit (ArbitrageFailure "Swap failed");
           fail (Revert "Swap failed")
  end.

Definition execute_trades (path : list address) (swapData : list (list byte))
  : M unit :=
  trade_loop path swapData 0 (length swapData).

(** Lines 63-79: solvency check, repayment allowance, distribution. *)
Definition settle (asset : address) (amount premium minProfit : N) : M bool :=
  totalDebt ← checked_add amount premium;
  finalBalance ← call_balanceOf asset (this cfg);
  _ ← emit (DebugLog "Final balance" finalBalance);
  (* finalBalance >= totalDebt *)
  _ ← require (bool_decide (totalDebt <= finalBalance))
        "Insufficient funds to repay";
  _ ← token_call (CallApprove asset (pool cfg) totalDebt)
        (erc20_approve asset (this cfg) (pool cfg) totalDebt);
  _ ← (if decide (totalDebt < finalBalance) then  (* finalBalance > totalDebt *)
         let profit := finalBalance - totalDebt in
         if decide (minProfit <= profit) then        (* profit >= minProfit *)
           _ ← token_call (CallTransfer asset (owner cfg) profit)
                 (erc20_transfer asset (this cfg) (owner cfg) profit);
           emit (ArbitrageProfit asset profit)
         else mret tt
       else mret tt);
  mret true.

Definition executeOperation (sender : address)
    (asset : address) (amount premium : N) (initiator : address)
    (params : list byte) : M bool :=
  _ ← require (bool_decide (sender = pool cfg)) "Unauthorized";
  _ ← require (bool_decide (initiator = owner cfg)) "Unauthorized initiator";
  balanceBefore ← call_balanceOf asset (this cfg);
  _ ← emit (DebugLog "Initial balance" balanceBefore);
  '(minProfit, path, swapData) ← abi_decode params;
  _ ← execute_trades path swapData;
  settle asset amount premium minProfit.

Definition onlyOwner (sender : address) : M unit :=
  require (bool_decide (sender = owner cfg)) "Only owner".

Definition fundContract (sender : address) (token : address) (amount : N)
  : M unit :=
  _ ← onlyOwner sender;
  token_call (CallTransferFrom token sender (this cfg) amount)
    (erc20_transferFrom token (this cfg) sender (this cfg) amount).

Definition withdrawToken (sender : address) (token : address) : M unit :=
  _ ← onlyOwner sender;
  balance ← call_balanceOf token (this cfg);
  token_call (CallTransfer token (owner cfg) balance)
    (erc20_transfer token (this cfg) (owner cfg) balance).

Definition ADDRESSES_PROVIDER : M address := mret (addressesProvider cfg).

Definition POOL : M address := mret (pool cfg).

(** *** The external surface *)

Inductive value : Type :=
| VAddress (a : address)
| VUint (n : N)
| VBytes (b : list byte)
| VBool (b : bool).

(** Dispatch of a call on the function signature. The contract declares no
    fallback and no receive function: a selector that matches none of its
    functions reverts without data. Public immutables have getters. *)
Definition dispatch (sender : address) (signature : string)
    (args : list value) : M (list value) :=
  if decide (signature = "executeOperation(address,uint256,uint256,address,bytes)"%string) then
    match args with
    | [VAddress asset; VUint amount; VUint premium; VAddress initiator;
       VBytes params] =>
        b ← executeOperation sender asset amount premium initiator params;
        mret [VBool b]
    | _ => fail RevertNoData
    end
  else if decide (signature = "fundContract(address,uint256)"%string) then
    match args with
    | [VAddress token; VUint amount] =>
        _ ← fundContract sender token amount; mret []
    | _ => fail RevertNoData
    end
  else if decide (signature = "withdrawToken(address)"%string) then
    match args with
    | [VAddress token] => _ ← withdrawToken sender token; mret []
    | _ => fail RevertNoData
    end
  else if decide (signature = "ADDRESSES_PROVIDER()"%string) then
    a ← ADDRESSES_PROVIDER; mret [VAddress a]
  else if decide (signature = "POOL()"%string) then
    a ← POOL; mret [VAddress a]
  else if decide (signature = "owner()"%string) then
    mret [VAddress (owner cfg)]
  else if decide (signature = "pool()"%string) then
    mret [VAddress (pool cfg)]
  else if decide (signature = "addressesProvider()"%string) then
    mret [VAddress (addressesProvider cfg)]
  else fail RevertNoData.

End with_targets.

(** A transaction made of one call: what persists. *)
Definition transact {A : Type} (m : M A) (st : state) : state :=
  match m st [] with
  | Ok _ st' _ => st'
  | Fail _ _ => st
  end.

(** The error taxonomy of the design (its section 7), as a reading of the
    revert reasons of the contract. *)
Inductive error_class : Type :=
| Unauthorized
| SwapFailed
| InsufficientRepayment
| Unclassified.

Definition classify (f : failure) : error_class :=
  match f with
  | Revert reason =>
      if decide (reason = "Unauthorized"%string) then Unauthorized
      else if decide (reason = "Unauthorized initiator"%string) then Unauthorized
      else if decide (reason = "Only owner"%string) then Unauthorized
      else if decide (reason = "Swap failed"%string) then SwapFailed
      else if decide (reason = "Insufficient funds to repay"%string)
           then InsufficientRepayment
      else Unclassified
  | _ => Unclassified
  end.

End Contract.

(** ** Observations on a run of the contract *)
Module Observe.
Import Chain Contract.

Definition result_trace {A : Type} (r : result A) : list action :=
  match r with
  | Ok _ _ tr => tr
  | Fail _ tr => tr
  end.

Definition is_transfer (a : action) : bool :=
  match a with
  | CallTransfer _ _ _ => true
  | _ => false
  end.

Definition is_invocation (a : action) : bool :=
  match a with
  | CallTarget _ _ _ _ => true
  | _ => false
  end.

Definition is_profit (e : event) : bool :=
  match e with
  | ArbitrageProfit _ _ => true
  | _ => false
  end.

(** An invocation uses an index that is inside both sequences, and invokes
    the pair found there. *)
Definition in_bounds (path : list address) (swapData : list (list byte))
    (a : action) : Prop :=
  match a with
  | CallTarget i target payload _ =>
      path !! i = Some target /\ swapData !! i = Some payload
  | _ => True
  end.

(** The token transfers a run made. *)
Definition transfers {A : Type} (r : result A) : list action :=
  filter (fun a => is_transfer a = true) (result_trace r).

(** The trade instructions a run invoked. *)
Definition invocations {A : Type} (r : result A) : list action :=
  filter (fun a => is_invocation a = true) (result_trace r).

(** The profit facts in the log of a state. *)
Definition profit_facts (st : state) : list event :=
  filter (fun e => is_profit e = true) (logs st).

Section with_targets.
Variable external_call : address -> address -> list byte -> state -> option state.
Variable cfg : config.

(** The session for the given call passes AUTHORIZE, DECODE and
    EXECUTE_TRADES: it decodes [minProfit] and leaves the trades with state
    [st2] and trace [tr2]. *)
Definition reaches_settlement (sender asset initiator : address)
    (params : list byte) (st : state)
    (minProfit : N) (st2 : state) (tr2 : list action) : Prop :=
  sender = pool cfg /\ initiator = owner cfg /\
  exists path swapData,
    ABI.decode params = Some (minProfit, path, swapData) /\
    execute_trades external_call cfg path swapData
      (add_log (DebugLog "Initial balance" (balanceOf st asset (this cfg))) st)
      [CallBalanceOf asset (this cfg); Decoded]
    = Ok tt st2 tr2.

End with_targets.

End Observe.

(** ** A small concrete chain, for running the model *)
Module Fixture.
Import Chain Contract.

Definition operator : address := 1.
Definition lending_pool : address := 2.
Definition provider : address := 3.
Definition settlement : address := 4.
Definition stranger : address := 5.
Definition venue_a : address := 7.
Definition venue_b : address := 8.
Definition token : address := 10.

Definition cfg : config := mkConfig operator lending_pool provider settlement.

(** Venue A pays the caller 60 tokens, venue B pays 1, any other target
    reverts. *)
Definition venues (caller target : address) (payload : list byte) (st : state)
  : option state :=
  if decide (target = venue_a)
  then Some (set_balance token caller (balanceOf st token caller + 60) st)
  else if decide (target = venue_b)
  then Some (set_balance token caller (balanceOf st token caller + 1) st)
  else None.

(** The contract holds 101 tokens, the operator none. *)
Definition funded : state := mkState {[ (token, settlement) := 101 ]} ∅ [].

End Fixture.

(** ** The off-chain bot [ProductionArbitrageBot]

    Console output and Telegram messages are left out. Numbers that the
    source holds as JavaScript floats (gas prices in gwei, the displayed
    price difference) are exact rationals here. *)
Module Bot.
Import Chain.
Local Open Scope Z_scope.

(** *** Configuration *)

Definition UNISWAP_V3_ROUTER : address := 0x3fC91A3afd70395Cd496C647d5a6CC9D4B2b7FAD%N.
Definition UNISWAP_V3_QUOTER : address := 0xb27308f9F90D607463bb33eA1BeBb41C27CE5AB6%N.
Definition SUSHISWAP_ROUTER : address := 0x1b02dA8Cb0d097eB8D57A175b88c7D8b47997506%N.
Definition DAI : address := 0xFF34B3d4Aee8ddCd6F9AFFFB6Fe49bD371b8a357%N.
Definition WETH : address := 0xC558DBdd856501FCd9aaF1E62eae57A9F0629a3c%N.
Definition USDC : address := 0xda9d4f9b69ac6C22e444eD9aF0CfC043b7a7f53f%N.

(** [ethers.parseUnits(s, d)] for a whole number [s]. *)
Definition parseUnits (units : Z) (decimals : Z) : Z := units * 10 ^ decimals.

Definition SCAN_INTERVAL : Z := 60000.
Definition MIN_PROFIT_WEI : Z := 10 ^ 17.                 (* parseUnits("0.1", 18) *)
Definition MAX_GAS_PRICE : Z := parseUnits 25 9.          (* 25 gwei, in wei *)
Definition DEFAULT_AMOUNT : Z := parseUnits 10 18.
Definition MIN_PRICE_DIFFERENCE : Z := 50.
Definition MAX_SLIPPAGE : Z := 200.

(** What the process is started with: the operator's wallet, the address
    of the lending pool, and the deployed settlement contract (whose
    address is [CONTRACTS.FLASH_ARBITRAGE]). *)
Record deployment : Type := mkDeployment {
  wallet : address;
  AAVE_POOL : address;
  flash : Contract.config
}.

Definition FLASH_ARBITRAGE (d : deployment) : address := Contract.this (flash d).

(** *** Completions: a value or a thrown error *)

Inductive completion (A : Type) : Type :=
| Normal (a : A)
| Throw (message : string).
Arguments Normal {A} a.
Arguments Throw {A} message.

#[global] Instance completion_ret : MRet completion := fun A a => Normal a.
#[global] Instance completion_bind : MBind completion := fun A B f m =>
  match m with
  | Normal a => f a
  | Throw e => Throw e
  end.

(** BigInt division truncates, and throws on a zero divisor. *)
Definition bigint_div (a b : Z) : completion Z :=
  if decide (b = 0) then Throw "RangeError: Division by zero"
  else Normal (a ÷ b).

(** *** The opportunity evaluator *)

Record price : Type := mkPrice {
  quote_amount : Z;
  source : string
}.

Record Opportunity : Type := mkOpportunity {
  tokenA : address;
  tokenB : address;
  amount : Z;
  buyFromDex : string;
  sellToDex : string;
  buyPrice : Z;
  sellPrice : Z;
  estimatedProfit : Z;
  priceDifference : Q;
  gasEstimate : Z
}.

(** [priceDiff] is a BigInt between 0 and 10000 when the quotes are not
    negative, so its conversion to a Number is exact. *)
Definition analyzeOpportunity (amount : Z) (price1 price2 : price)
    (tokenA tokenB : address) : completion (option Opportunity) :=
  let amount1 := quote_amount price1 in
  let amount2 := quote_amount price2 in
  priceDiff ←
    (if decide (amount1 > amount2)
     then bigint_div ((amount1 - amount2) * 10000) amount1
     else bigint_div ((amount2 - amount1) * 10000) amount2);
  if decide (priceDiff < MIN_PRICE_DIFFERENCE) then Normal None
  else
    let buyFromDex :=
      if decide (amount1 > amount2) then source price2 else source price1 in
    let sellToDex :=
      if decide (amount1 > amount2) then source price1 else source price2 in
    let buyPrice := if decide (amount1 > amount2) then amount2 else amount1 in
    let sellPrice := if decide (amount1 > amount2) then amount1 else amount2 in
    let flashLoanFee := (amount * 9) ÷ 10000 in
    let estimatedProfit := sellPrice - buyPrice - flashLoanFee in
    if decide (estimatedProfit < MIN_PROFIT_WEI) then Normal None
    else Normal (Some {|
      tokenA := tokenA;
      tokenB := tokenB;
      amount := amount;
      buyFromDex := buyFromDex;
      sellToDex := sellToDex;
      buyPrice := buyPrice;
      sellPrice := sellPrice;
      estimatedProfit := estimatedProfit;
      priceDifference := Qmake priceDiff 100;
      gasEstimate := 200000
    |}).

(** *** The instruction blob *)

(** [AbiCoder.encode(["uint256", "address[]", "bytes[]"], ...)]: the
    number coder throws on a value outside [uint256]. *)
Definition AbiCoder_encode (value : Z) (targets : list address)
    (payloads : list (list byte)) : completion (list byte) :=
  if decide (0 <= value <= Z.of_N ABI.UINT256_MAX)
  then Normal (ABI.encode (Z.to_N value) targets payloads)
  else Throw "value out-of-bounds".

Definition encodeArbitrageParams (opportunity : Opportunity)
  : completion (list byte) :=
  let swapTargets :=
    [ (if decide (buyFromDex opportunity = "uniswap"%string)
       then UNISWAP_V3_ROUTER else SUSHISWAP_ROUTER);
      (if decide (sellToDex opportunity = "uniswap"%string)
       then UNISWAP_V3_ROUTER else SUSHISWAP_ROUTER) ] in
  let swapData := [ []; [] ] in
  AbiCoder_encode (estimatedProfit opportunity) swapTargets swapData.

(** *** The bot object, the chain and the network *)

Record bot : Type := mkBot {
  isRunning : bool;
  (** (timestamp, gas price in gwei) *)
  gasHistory : list (Z * Q);
  (** (timestamp, profit) *)
  profitHistory : list (Z * Z)
}.

(** The requests the bot makes to the network, in order. *)
Inductive rpc : Type :=
| GetBalance (account : address)
| GetFeeData
| Call_balanceOf (token account : address)
| QuoteExactInputSingle (tokenIn tokenOut : address) (fee amountIn : Z)
| GetAmountsOut (amountIn : Z) (path : list address)
| Tx_approve (token spender : address) (amount : Z)
| Tx_fundContract (token : address) (amount : Z)
| Tx_flashLoanSimple (receiver asset : address) (amount : Z)
                     (params : list byte) (referralCode : Z).

Definition is_transaction (r : rpc) : bool :=
  match r with
  | Tx_approve _ _ _ | Tx_fundContract _ _ | Tx_flashLoanSimple _ _ _ _ _ => true
  | _ => false
  end.

(** The venue quotes ([quoteExactInputSingle], [getAmountsOut]) are
    side-effect-free reads that never submit a transaction. *)
Definition is_price_query (r : rpc) : bool :=
  match r with
  | QuoteExactInputSingle _ _ _ _ | GetAmountsOut _ _ => true
  | _ => false
  end.

(** What the network answers during one cycle; [None] is a failed request
    (the awaited promise rejects). *)
Record network : Type := mkNetwork {
  now : Z;
  eth_balance : Z;
  (** [feeData.gasPrice], in wei; [Some None] when the field is null *)
  fee_data : option (option Z);
  uniswap_quote : option Z;
  sushi_quote : option Z;
  (** the logs of the receipt of the loan transaction *)
  flash_loan : option (list event)
}.

Record system : Type := mkSystem {
  self : bot;
  chain : state;
  requests : list rpc
}.

(** The transactions submitted so far. *)
Definition transactions (s : system) : list rpc :=
  filter (fun r => is_transaction r = true) (requests s).

(** The venue quotes asked so far. *)
Definition price_queries (s : system) : list rpc :=
  filter (fun r => is_price_query r = true) (requests s).

(** An asynchronous method: it may throw, and what it did before stays
    done. *)
Definition JS (A : Type) : Type := system -> completion A * system.

#[global] Instance JS_ret : MRet JS := fun A a s => (Normal a, s).
#[global] Instance JS_bind : MBind JS := fun A B f m s =>
  match m s with
  | (Normal a, s') => f a s'
  | (Throw e, s') => (Throw e, s')
  end.

Definition throw {A : Type} (message : string) : JS A :=
  fun s => (Throw message, s).

Definition try_catch {A : Type} (body : JS A) (handler : string -> JS A) : JS A :=
  fun s =>
    match body s with
    | (Normal a, s') => (Normal a, s')
    | (Throw e, s') => handler e s'
    end.

Definition lift {A : Type} (c : completion A) : JS A := fun s => (c, s).

Definition request (r : rpc) : JS unit :=
  fun s => (Normal tt, mkSystem (self s) (chain s) (requests s ++ [r])).

Definition get_bot : JS bot := fun s => (Normal (self s), s).

Definition set_bot (b : bot) : JS unit :=
  fun s => (Normal tt, mkSystem b (chain s) (requests s)).

Definition get_chain : JS state := fun s => (Normal (chain s), s).

(** A read of a token balance on the chain. *)
Definition read_balanceOf (token account : address) : JS Z :=
  _ ← request (Call_balanceOf token account);
  st ← get_chain;
  mret (Z.of_N (balanceOf st token account)).

(** A transaction sent without a [gasLimit], awaited until it is mined.
    The signer first estimates its gas: a call that would revert throws
    there, and the transaction is never submitted. Otherwise it is
    submitted and mined. *)
Definition send (r : rpc) (effect : state -> option state) : JS unit :=
  fun s =>
    match effect (chain s) with
    | Some st' => (Normal tt, mkSystem (self s) st' (requests s ++ [r]))
    | None => (Throw "execution reverted", s)
    end.

(** An awaited request answered by the network. The loan transaction
    passes its own [gasLimit], so it is submitted without an estimate, and
    it is the network's answer that tells whether it went through. *)
Definition await {A : Type} (r : rpc) (answer : option A) : JS A :=
  _ ← request r;
  match answer with
  | Some a => mret a
  | None => throw "request failed"
  end.

Section with_deployment.
Variable d : deployment.
Variable net : network.

(** *** The funding guard *)

Definition fundContract_effect (token : address) (amount : N) (st : state)
  : option state :=
  match Contract.fundContract (flash d) (wallet d) token amount st [] with
  | Contract.Ok _ st' _ => Some st'
  | Contract.Fail _ _ => None
  end.

Definition ensureContractFunding : JS unit :=
  balance ← read_balanceOf DAI (FLASH_ARBITRAGE d);
  if decide (balance < parseUnits 5 18) then
    walletDaiBalance ← read_balanceOf DAI (wallet d);
    if decide (walletDaiBalance < parseUnits 10 18) then
      throw "Insufficient DAI in wallet for contract funding"
    else
      _ ← send (Tx_approve DAI (FLASH_ARBITRAGE d) (parseUnits 10 18))
            (erc20_approve DAI (wallet d) (FLASH_ARBITRAGE d)
               (Z.to_N (parseUnits 10 18)));
      send (Tx_fundContract DAI (parseUnits 10 18))
        (fundContract_effect DAI (Z.to_N (parseUnits 10 18)))
  else mret tt.

(** *** Gas price *)

(** [parseFloat(ethers.formatUnits(wei, "gwei"))] *)
Definition gwei (wei : Z) : Q := Qmake wei 1000000000.

(** [this.gasHistory.slice(-20)] *)
Definition last20 {A : Type} (l : list A) : list A := drop (length l - 20) l.

Definition getCurrentGasPrice : JS Q :=
  try_catch
    (feeData ← await GetFeeData (fee_data net);
     match feeData with
     | None => throw "invalid BigNumberish value"   (* formatUnits(null) *)
     | Some wei =>
         let gasPrice := gwei wei in
         b ← get_bot;
         let history := gasHistory b ++ [(now net, gasPrice)] in
         _ ← set_bot (mkBot (isRunning b)
                 (if decide (20 < length history)%nat then last20 history
                  else history)
                 (profitHistory b));
         mret gasPrice
     end)
    (fun _ => mret (inject_Z 50)).

(** *** Quotes *)

Definition getUniswapPrice (tokenIn tokenOut : address) (amountIn : Z)
  : JS (option price) :=
  try_catch
    (quote ← await (QuoteExactInputSingle tokenIn tokenOut 3000 amountIn)
               (uniswap_quote net);
     mret (Some (mkPrice quote "uniswap")))
    (fun _ => mret None).

Definition getSushiPrice (tokenIn tokenOut : address) (amountIn : Z)
  : JS (option price) :=
  try_catch
    (out ← await (GetAmountsOut amountIn [tokenIn; tokenOut]) (sushi_quote net);
     mret (Some (mkPrice out "sushiswap")))
    (fun _ => mret None).

(** The array holds at most one opportunity, so the final [sort] never
    calls its comparator and returns the array as it is. *)
Definition scanForArbitrageOpportunities : JS (list Opportunity) :=
  let amount := DEFAULT_AMOUNT in
  try_catch
    (uniswapPrice ← getUniswapPrice DAI WETH amount;
     sushiPrice ← getSushiPrice DAI WETH amount;
     match uniswapPrice, sushiPrice with
     | Some p1, Some p2 =>
         opportunity ← lift (analyzeOpportunity amount p1 p2 DAI WETH);
         match opportunity with
         | Some o => mret [o]
         | None => mret []
         end
     | _, _ => mret []
     end)
    (fun _ => mret []).

(** *** Execution *)

(** The last [ArbitrageProfit] and the last [ArbitrageFailure] of the
    receipt. *)
Definition last_profit (logs : list event) : option N :=
  fold_left (fun acc e =>
    match e with ArbitrageProfit _ p => Some p | _ => acc end) logs None.

Definition last_failure (logs : list event) : option string :=
  fold_left (fun acc e =>
    match e with ArbitrageFailure r => Some r | _ => acc end) logs None.

(** [if (profit)]: a zero BigInt is falsy. *)
Definition parseTransactionResult (logs : list event) : JS unit :=
  match last_profit logs with
  | Some p =>
      if decide (p = 0%N) then mret tt
      else
        b ← get_bot;
        set_bot (mkBot (isRunning b) (gasHistory b)
                   (profitHistory b ++ [(now net, Z.of_N p)]))
  | None => mret tt
  end.

Definition executeArbitrage (opportunity : Opportunity) : JS unit :=
  try_catch
    (params ← lift (encodeArbitrageParams opportunity);
     receipt ← await (Tx_flashLoanSimple (FLASH_ARBITRAGE d)
                        (tokenA opportunity) (amount opportunity) params 0)
                 (flash_loan net);
     parseTransactionResult receipt)
    (fun _ => mret tt).

(** [gasPrice > parseFloat(ethers.formatUnits(MAX_GAS_PRICE, "gwei"))] *)
Definition gas_too_high (gasPrice : Q) : bool :=
  negb (Qle_bool gasPrice (gwei MAX_GAS_PRICE)).

Definition executeTradingCycle : JS unit :=
  gasPrice ← getCurrentGasPrice;
  if gas_too_high gasPrice then mret tt
  else
    opportunities ← scanForArbitrageOpportunities;
    match opportunities with
    | [] => mret tt
    | bestOpportunity :: _ => executeArbitrage bestOpportunity
    end.


End with_deployment.

End Bot.

(** ** The polling loop and its restart timer

    [start()] is an asynchronous method: between two awaits it runs without
    interruption, and at an await other callbacks get to run. The process is
    modelled at that grain: every invocation of [start()] that has not
    returned is suspended at one of its three awaits, and an event resumes
    one of them, fires the 5-second [setInterval] callback, calls [stop()],
    or delivers SIGINT. How long a trading cycle or a wait takes is left
    to the order of the events. *)
Module Orchestrator.

(** Where an invocation of [start()] is suspended. *)
Inductive phase : Type :=
| AwaitStartup       (* await this.performStartupChecks() *)
| AwaitCycle         (* await this.executeTradingCycle() *)
| AwaitSleep         (* await new Promise(... setTimeout ... SCAN_INTERVAL) *)
| Returned.

Record process : Type := mkProcess {
  isRunning : bool;
  (** the invocations of [start()], oldest first *)
  tasks : list phase;
  (** how many times [executeTradingCycle()] has been called *)
  cycles : nat;
  (** [process.exit(0)] has been called *)
  exited : bool
}.

Inductive event : Type :=
| TimerFired                            (* the setInterval callback *)
| StartupDone (k : nat) (ok : bool)     (* the startup checks of task k settle *)
| CycleDone (k : nat)                   (* the cycle of task k settles *)
| SleepDone (k : nat)                   (* the wait of task k is over *)
| StopCalled                            (* bot.stop() *)
| Sigint.                               (* the SIGINT handler *)

Definition initial : process := mkProcess false [] 0 false.

Definition set_phase (k : nat) (p : phase) (s : process) : process :=
  mkProcess (isRunning s) (<[k := p]> (tasks s)) (cycles s) (exited s).

(** [finally { this.isRunning = false; }], after which [start()] returns. *)
Definition finally (k : nat) (s : process) : process :=
  mkProcess false (<[k := Returned]> (tasks s)) (cycles s) (exited s).

(** The head of [while (this.isRunning)]: call [executeTradingCycle()], or
    leave the loop. *)
Definition loop_head (k : nat) (s : process) : process :=
  if isRunning s
  then mkProcess true (<[k := AwaitCycle]> (tasks s)) (S (cycles s)) (exited s)
  else finally k s.

(** [start()] up to its first await. *)
Definition start (s : process) : process :=
  if isRunning s then s   (* "Bot is already running!" *)
  else mkProcess true (tasks s ++ [AwaitStartup]) (cycles s) (exited s).

Definition stop (s : process) : process :=
  mkProcess false (tasks s) (cycles s) (exited s).

Definition step (s : process) (e : event) : process :=
  if exited s then s
  else
    match e with
    | TimerFired => if negb (isRunning s) then start s else s
    | StartupDone k ok =>
        match tasks s !! k with
        | Some AwaitStartup => if ok then loop_head k s else finally k s
        | _ => s
        end
    | CycleDone k =>
        (* a throwing cycle is caught inside the loop *)
        match tasks s !! k with
        | Some AwaitCycle => set_phase k AwaitSleep s
        | _ => s
        end
    | SleepDone k =>
        match tasks s !! k with
        | Some AwaitSleep => loop_head k s
        | _ => s
        end
    | StopCalled => stop s
    | Sigint =>
        let s' := stop s in
        mkProcess (isRunning s') (tasks s') (cycles s') true
    end.

Definition run (s : process) (events : list event) : process :=
  fold_left step events s.

(** The loop is stopped: the flag is down. *)
Definition stopped (s : process) : Prop := isRunning s = false.

End Orchestrator.

(** ** The formulas of the design document

    Written from the words of the design, to be compared with what the
    evaluator computes. *)
Module Documented.
Local Open Scope Z_scope.

(** [diffBps = |qa - qb| * 10000 / max(qa, qb)] *)
Definition diffBps (qa qb : Z) : Z :=
  Z.abs (qa - qb) * 10000 / Z.max qa qb.

(** [estimatedProfit = max(qa,qb) - min(qa,qb) - loanFee], with
    [loanFee = notional * 9 / 10000] *)
Definition documented_profit (qa qb n : Z) : Z :=
  Z.max qa qb - Z.min qa qb - n * 9 / 10000.

(** The same profit computed on naturals, where subtraction stops at
    zero. *)
Definition unsigned_profit (qa qb n : N) : N :=
  (N.max qa qb - N.min qa qb - n * 9 / 10000)%N.

End Documented.

(** ** A concrete deployment of the bot, for running the model *)
Module BotFixture.
Import Chain Bot.
Local Open Scope Z_scope.

Definition deployed : deployment :=
  mkDeployment Fixture.operator Fixture.lending_pool Fixture.cfg.

Definition idle : bot := mkBot true [] [].

(** The contract holds 5 DAI. *)
Definition capitalised : system :=
  mkSystem idle
    (mkState {[ (DAI, Fixture.settlement) := Z.to_N (parseUnits 5 18) ]} ∅ [])
    [].

(** The contract holds nothing, the operator's wallet 20 DAI. *)
Definition unfunded : system :=
  mkSystem idle
    (mkState {[ (DAI, Fixture.operator) := Z.to_N (parseUnits 20 18) ]} ∅ [])
    [].

(** Quotes of 10.00 and 10.60 for the notional, and a loan that settles
    with a profit. *)
Definition quotes (fee : option (option Z)) : network :=
  mkNetwork 1700000000000 (parseUnits 1 18) fee
    (Some (10 * 10 ^ 18)) (Some (1060 * 10 ^ 16))
    (Some [DebugLog "Initial balance" 0; ArbitrageProfit DAI 591]).

End BotFixture.

(** ** The trade loop as a fold *)
Module Trades.
Import Chain Contract.

(** The calls of a list of (target, payload) pairs made one after the
    other by [caller], each on the state the previous one left; nothing as
    soon as one of them reverts. *)
Fixpoint fold_calls
    (external_call : address -> address -> list byte -> state -> option state)
    (caller : address) (pairs : list (address * list byte)) (st : state)
  : option state :=
  match pairs with
  | [] => Some st
  | (target, payload) :: rest =>
      match external_call caller target payload st with
      | Some st' => fold_calls external_call caller rest st'
      | None => None
      end
  end.

(** The successful invocations of the pairs, numbered from [i]. *)
Fixpoint invocations_from (i : nat) (pairs : list (address * list byte))
  : list action :=
  match pairs with
  | [] => []
  | (target, payload) :: rest =>
      CallTarget i target payload true :: invocations_from (S i) rest
  end.

(** The router [encodeArbitrageParams] picks for a venue. *)
Definition router_of (venue : string) : address :=
  if decide (venue = "uniswap"%string)
  then Bot.UNISWAP_V3_ROUTER else Bot.SUSHISWAP_ROUTER.

(** The invocations [fold_calls] makes, numbered from [i]: the successful
    ones in order and, if a call reverts, that failed one last. *)
Fixpoint call_trace
    (external_call : address -> address -> list byte -> state -> option state)
    (caller : address) (i : nat) (pairs : list (address * list byte))
    (st : state) : list action :=
  match pairs with
  | [] => []
  | (target, payload) :: rest =>
      match external_call caller target payload st with
      | Some st' =>
          CallTarget i target payload true
            :: call_trace external_call caller (S i) rest st'
      | None => [CallTarget i target payload false]
      end
  end.

(** An action that is not a failed invocation. *)
Definition succeeded (a : action) : Prop :=
  match a with
  | CallTarget _ _ _ success => success = true
  | _ => True
  end.

(** The failed invocations of a trace. *)
Definition is_failed_invocation (a : action) : bool :=
  match a with
  | CallTarget _ _ _ false => true
  | _ => false
  end.

End Trades.

(** ** Observations on the polling loop *)
Module Loop.
Import Orchestrator.

Definition is_active (p : phase) : bool :=
  match p with
  | Returned => false
  | _ => true
  end.

(** The invocations of [start()] that have not returned. *)
Definition active (s : process) : list phase :=
  filter (fun p => is_active p = true) (tasks s).

Definition is_stop (e : event) : bool :=
  match e with
  | StopCalled => true
  | _ => false
  end.

End Loop.

(* ===================================================================== *)
(** * Part II: properties                                                 *)
(* ===================================================================== *)

Section abi_codec.
Import ABI.
#[local] Arguments word : simpl never.
#[local] Arguments len : simpl never.

Lemma length_be_bytes k n : length (be_bytes k n) = k.
Proof.
  revert n. induction k as [|k IH]; intros n; simpl; [done|].
  rewrite length_app, IH. simpl. lia.
Qed.

Lemma length_word n : length (word n) = 32%nat.
Proof. apply length_be_bytes. Qed.

Lemma len_word n : len (word n) = 32.
Proof. unfold len. rewrite length_word. done. Qed.

Lemma len_app x y : len (x ++ y) = len x + len y.
Proof. unfold len. rewrite length_app. lia. Qed.

Lemma to_N_byte_of_N n : Byte.to_N (byte_of_N n) = n mod 256.
Proof.
  unfold byte_of_N.
  destruct (Byte.of_N (n mod 256)) as [b|] eqn:E.
  - simpl. by apply Byte.to_of_N.
  - apply Byte.of_N_None_iff in E.
    pose proof (N.mod_upper_bound n 256). lia.
Qed.

Lemma be_value_snoc l b :
  be_value (l ++ [b]) = be_value l * 256 + Byte.to_N b.
Proof. unfold be_value. by rewrite fold_left_app. Qed.

Lemma be_value_be_bytes k n :
  be_value (be_bytes k n) = n mod 256 ^ N.of_nat k.
Proof.
  revert n. induction k as [|k IH]; intros n.
  - simpl. by rewrite N.mod_1_r.
  - cbn [be_bytes]. rewrite be_value_snoc, IH, to_N_byte_of_N.
    rewrite Nat2N.inj_succ, N.pow_succ_r'.
    rewrite N.Div0.mod_mul_r. lia.
Qed.

Lemma be_value_word n : n <= UINT256_MAX -> be_value (word n) = n.
Proof.
  intros H. unfold word. rewrite be_value_be_bytes.
  apply N.mod_small. unfold UINT256_MAX in H.
  change (256 ^ N.of_nat 32) with (2 ^ 256). lia.
Qed.

#[local] Ltac bind_some := cbn [mbind option_bind].

(** *** Slices of the blob *)

Lemma at_pos_whole data : at_pos data 0 data.
Proof. exists [], []. by rewrite app_nil_r. Qed.

Lemma at_pos_bound data pos x : at_pos data pos x -> pos + len x <= len data.
Proof.
  intros (pre & post & -> & <-). rewrite !len_app. lia.
Qed.

Lemma at_pos_app_l data pos x y : at_pos data pos (x ++ y) -> at_pos data pos x.
Proof.
  intros (pre & post & -> & <-). exists pre, (y ++ post).
  by rewrite <- app_assoc.
Qed.

Lemma at_pos_app_r data pos x y :
  at_pos data pos (x ++ y) -> at_pos data (pos + len x) y.
Proof.
  intros (pre & post & -> & <-). exists (pre ++ x), post.
  rewrite len_app. by rewrite <- !app_assoc.
Qed.

Lemma at_pos_slice data pos x n :
  at_pos data pos x -> n = length x ->
  take n (drop (N.to_nat pos) data) = x.
Proof.
  intros (pre & post & -> & <-) ->. unfold len. rewrite Nat2N.id.
  rewrite drop_app_length. by rewrite take_app_length.
Qed.

Lemma load_word data pos n :
  at_pos data pos (word n) -> n <= UINT256_MAX -> load data pos = Some n.
Proof.
  intros Hat Hn. unfold load.
  pose proof (at_pos_bound _ _ _ Hat) as Hb. rewrite len_word in Hb.
  rewrite decide_True by done.
  rewrite (at_pos_slice _ _ (word n)); [|done|by rewrite length_word].
  by rewrite be_value_word.
Qed.

Lemma uint64_le_uint256 n : n <= UINT64_MAX -> n <= UINT256_MAX.
Proof. unfold UINT64_MAX, UINT256_MAX. lia. Qed.

(** *** Elements *)

Lemma decode_bytes_enc data pos b :
  at_pos data pos (enc_bytes b) -> len data <= UINT64_MAX ->
  decode_bytes data pos = Some b.
Proof.
  intros Hat Hlen. unfold enc_bytes, pad_right in Hat.
  pose proof (at_pos_app_l _ _ _ _ Hat) as Hw.
  pose proof (at_pos_app_l _ _ _ _ (at_pos_app_r _ _ _ _ Hat)) as Hb.
  rewrite len_word in Hb.
  pose proof (at_pos_bound _ _ _ Hb) as Hbound.
  assert (len b <= UINT64_MAX) as Hsmall by lia.
  unfold decode_bytes.
  rewrite (load_word _ _ _ Hw) by by apply uint64_le_uint256.
  simpl. rewrite decide_True by done.
  f_equal. apply at_pos_slice; [done|]. unfold len. by rewrite Nat2N.id.
Qed.

Lemma read_addresses_enc data l : forall src,
  at_pos data src (concat (map word l)) ->
  Forall (fun a => a <= ADDRESS_MAX) l ->
  read_addresses data src (length l) = Some l.
Proof.
  induction l as [|a l IH]; intros src Hat Hl; [done|].
  apply Forall_cons in Hl as [Ha Hl].
  cbn [map concat length read_addresses] in Hat |- *.
  rewrite (load_word _ _ a).
  - bind_some. rewrite decide_True by done.
    rewrite IH; [done| |done].
    apply at_pos_app_r in Hat. by rewrite len_word in Hat.
  - by apply at_pos_app_l in Hat.
  - unfold ADDRESS_MAX in Ha. unfold UINT256_MAX. lia.
Qed.

Lemma len_concat_words (l : list N) :
  len (concat (map word l)) = 32 * N.of_nat (length l).
Proof.
  induction l as [|a l IH]; [done|].
  cbn [map concat length]. rewrite len_app, len_word, IH. lia.
Qed.

Lemma decode_address_array_enc data pos l :
  at_pos data pos (enc_address_array l) -> len data <= UINT64_MAX ->
  Forall (fun a => a <= ADDRESS_MAX) l ->
  decode_address_array data pos = Some l.
Proof.
  intros Hat Hlen Hl. unfold enc_address_array in Hat.
  pose proof (at_pos_bound _ _ _ Hat) as Hb.
  rewrite len_app, len_word, len_concat_words in Hb.
  unfold decode_address_array.
  rewrite (load_word _ _ (N.of_nat (length l))).
  - bind_some. rewrite decide_True by (split; lia).
    rewrite Nat2N.id. apply read_addresses_enc; [|done].
    apply at_pos_app_r in Hat. by rewrite len_word in Hat.
  - by apply at_pos_app_l in Hat.
  - apply uint64_le_uint256. lia.
Qed.

Lemma len_heads l : forall off, len (heads off l) = 32 * N.of_nat (length l).
Proof.
  induction l as [|b l IH]; intros off; [done|].
  cbn [heads length]. rewrite len_app, len_word, IH. lia.
Qed.

Lemma read_bytes_elements_enc data base l : forall src off,
  at_pos data src (heads off l) ->
  at_pos data (base + off) (tails l) ->
  len data <= UINT64_MAX ->
  read_bytes_elements data base src (length l) = Some l.
Proof.
  induction l as [|b l IH]; intros src off Hh Ht Hlen; [done|].
  cbn [heads] in Hh. unfold tails in Ht. cbn [map concat] in Ht.
  fold (tails l) in Ht.
  pose proof (at_pos_bound _ _ _ Ht) as Hb.
  cbn [read_bytes_elements length].
  rewrite (load_word _ _ off).
  - bind_some. rewrite decide_True by lia.
    rewrite (decode_bytes_enc _ _ b); [|by apply at_pos_app_l in Ht|done].
    bind_some. rewrite (IH (src + 32) (off + len (enc_bytes b))); [done| | |done].
    + apply at_pos_app_r in Hh. by rewrite len_word in Hh.
    + apply at_pos_app_r in Ht. by rewrite N.add_assoc.
  - by apply at_pos_app_l in Hh.
  - apply uint64_le_uint256. lia.
Qed.

Lemma decode_bytes_array_enc data pos l :
  at_pos data pos (enc_bytes_array l) -> len data <= UINT64_MAX ->
  decode_bytes_array data pos = Some l.
Proof.
  intros Hat Hlen. unfold enc_bytes_array in Hat.
  pose proof (at_pos_bound _ _ _ Hat) as Hb.
  rewrite !len_app, len_word, len_heads in Hb.
  pose proof (at_pos_app_r _ _ _ _ Hat) as Hrest. rewrite len_word in Hrest.
  unfold decode_bytes_array.
  rewrite (load_word _ _ (N.of_nat (length l))).
  - bind_some. rewrite decide_True by (split; lia).
    rewrite Nat2N.id.
    apply (read_bytes_elements_enc _ _ _ _ (32 * N.of_nat (length l)));
      [by apply at_pos_app_l in Hrest| |done].
    apply at_pos_app_r in Hrest. by rewrite len_heads in Hrest.
  - by apply at_pos_app_l in Hat.
  - apply uint64_le_uint256. lia.
Qed.

(** *** The tuple *)

Lemma decode_encode minProfit path swapData :
  well_formed minProfit path swapData ->
  decode (encode minProfit path swapData) = Some (minProfit, path, swapData).
Proof.
  intros (Hv & Hp & Hlen).
  set (data := encode minProfit path swapData) in *.
  pose proof (at_pos_whole data) as H0. unfold data at 2 in H0.
  unfold encode in H0.
  pose proof (at_pos_app_l _ _ _ _ H0) as Hw0.
  pose proof (at_pos_app_r _ _ _ _ H0) as H1.
  rewrite len_word in H1. change (0 + 32) with 32 in H1.
  pose proof (at_pos_app_l _ _ _ _ H1) as Hw1.
  pose proof (at_pos_app_r _ _ _ _ H1) as H2.
  rewrite len_word in H2. change (32 + 32) with 64 in H2.
  pose proof (at_pos_app_l _ _ _ _ H2) as Hw2.
  pose proof (at_pos_app_r _ _ _ _ H2) as H3.
  rewrite len_word in H3. change (64 + 32) with 96 in H3.
  pose proof (at_pos_app_l _ _ _ _ H3) as Ha.
  pose proof (at_pos_app_r _ _ _ _ H3) as Hb.
  pose proof (at_pos_bound _ _ _ H3) as Hb3. rewrite len_app in Hb3.
  unfold decode.
  rewrite decide_True by lia.
  rewrite (load_word _ _ _ Hw0) by done. bind_some.
  rewrite (load_word _ _ _ Hw1) by (unfold UINT256_MAX; lia). bind_some.
  rewrite decide_True by (unfold UINT64_MAX; lia).
  rewrite (decode_address_array_enc _ _ _ Ha) by done. bind_some.
  rewrite (load_word _ _ _ Hw2) by (apply uint64_le_uint256; lia). bind_some.
  rewrite decide_True by lia.
  by rewrite (decode_bytes_array_enc _ _ _ Hb).
Qed.

End abi_codec.

Section abi_examples.
Import ABI.

Example decode_encode_example :
  decode (encode 7 [1; 2] [[x01; x02]; []]) = Some (7, [1; 2], [[x01; x02]; []]).
Proof. vm_compute. reflexivity. Qed.

(** The decoder does not insist on the canonical layout: trailing bytes
    are ignored, so distinct blobs can decode to the same triple. *)
Example decode_ignores_trailing_bytes :
  decode (encode 7 [1; 2] [[x01; x02]; []] ++ [xff])
  = Some (7, [1; 2], [[x01; x02]; []]).
Proof. vm_compute. reflexivity. Qed.

End abi_examples.

(* --------------------------------------------------------------------- *)
(** ** The settlement session                                             *)
(* --------------------------------------------------------------------- *)

Section settlement.
Import Chain Contract Observe.

Variable external_call : address -> address -> list byte -> state -> option state.
Variable cfg : config.

#[local] Ltac run :=
  repeat (progress (
    unfold mbind, M_bind, mret, M_ret, require, fail, emit, trace,
      call_balanceOf, token_call, abi_decode, checked_add;
    cbv beta iota)).

(** C2. A callback whose caller is not the configured pool, or whose
    initiator is not the configured operator, reverts with an
    [Unauthorized] reason. Nothing precedes the failure (no call to the
    token, no decoding, no trade: the trace is empty), whatever the
    instruction blob holds, and the transaction leaves the chain as it
    was. *)
Theorem unauthorized_session_rejected sender asset amount premium initiator
    params st :
  sender <> pool cfg \/ initiator <> owner cfg ->
  let session :=
    executeOperation external_call cfg sender asset amount premium initiator
      params in
  let reason :=
    if decide (sender = pool cfg) then "Unauthorized initiator"%string
    else "Unauthorized"%string in
  session st [] = Fail (Revert reason) []
  /\ classify (Revert reason) = Unauthorized
  /\ transact session st = st.
Proof.
  intros Hbad session reason.
  assert (session st [] = Fail (Revert reason) []) as Hrun.
  { unfold session, reason, executeOperation. run.
    destruct (decide (sender = pool cfg)) as [Hs|Hs].
    - rewrite (bool_decide_eq_true_2 _ Hs).
      destruct Hbad as [?|Hi]; [done|].
      by rewrite (bool_decide_eq_false_2 _ Hi).
    - by rewrite (bool_decide_eq_false_2 _ Hs). }
  split; [done|]. split.
  - unfold reason. by destruct (decide (sender = pool cfg)).
  - unfold transact. by rewrite Hrun.
Qed.


(** *** From the callback to the settlement steps *)

Lemma executeOperation_settle sender asset amount premium initiator params st
    minProfit st2 tr2 :
  reaches_settlement external_call cfg sender asset initiator params st
    minProfit st2 tr2 ->
  executeOperation external_call cfg sender asset amount premium initiator
    params st []
  = settle cfg asset amount premium minProfit st2 tr2.
Proof.
  intros (Hs & Hi & path & swapData & Hdec & Htrades).
  unfold executeOperation. run.
  rewrite (bool_decide_eq_true_2 _ Hs), (bool_decide_eq_true_2 _ Hi).
  rewrite Hdec. simpl. by rewrite Htrades.
Qed.

Lemma settle_overflow asset amount premium minProfit st2 tr2 :
  ABI.UINT256_MAX < amount + premium ->
  settle cfg asset amount premium minProfit st2 tr2 = Fail (Panic 0x11) tr2.
Proof.
  intros H. unfold settle. run. by rewrite decide_False by lia.
Qed.

Lemma settle_insolvent asset amount premium minProfit st2 tr2 :
  amount + premium <= ABI.UINT256_MAX ->
  balanceOf st2 asset (this cfg) < amount + premium ->
  settle cfg asset amount premium minProfit st2 tr2
  = Fail (Revert "Insufficient funds to repay")
         (tr2 ++ [CallBalanceOf asset (this cfg)]).
Proof.
  intros Hfit Hlow. unfold settle. run. rewrite decide_True by done.
  run. by rewrite bool_decide_eq_false_2 by lia.
Qed.

Lemma settle_retain asset amount premium minProfit st2 tr2 :
  let B := balanceOf st2 asset (this cfg) in
  let debt := amount + premium in
  debt <= ABI.UINT256_MAX -> debt <= B ->
  B = debt \/ B - debt < minProfit ->
  settle cfg asset amount premium minProfit st2 tr2
  = Ok true
      (set_allowance asset (this cfg) (pool cfg) debt
         (add_log (DebugLog "Final balance" B) st2))
      (tr2 ++ [CallBalanceOf asset (this cfg)]
           ++ [CallApprove asset (pool cfg) debt]).
Proof.
  intros B debt Hfit Hsolvent Hkeep. unfold settle. run.
  rewrite decide_True by done. run. fold B debt.
  rewrite bool_decide_eq_true_2 by done. unfold erc20_approve.
  run. rewrite <- app_assoc.
  destruct (decide (debt < B)) as [Hlt|Hge]; [|done].
  rewrite decide_False; [done|]. lia.
Qed.

Lemma settle_distribute asset amount premium minProfit st2 tr2 :
  let B := balanceOf st2 asset (this cfg) in
  let debt := amount + premium in
  debt <= ABI.UINT256_MAX -> debt < B -> minProfit <= B - debt ->
  settle cfg asset amount premium minProfit st2 tr2
  = Ok true
      (add_log (ArbitrageProfit asset (B - debt))
         (move asset (this cfg) (owner cfg) (B - debt)
            (set_allowance asset (this cfg) (pool cfg) debt
               (add_log (DebugLog "Final balance" B) st2))))
      (tr2 ++ [CallBalanceOf asset (this cfg)]
           ++ [CallApprove asset (pool cfg) debt]
           ++ [CallTransfer asset (owner cfg) (B - debt)]).
Proof.
  intros B debt Hfit Hlt Hmin. unfold settle. run.
  rewrite decide_True by done. run. fold B debt.
  rewrite bool_decide_eq_true_2 by lia. unfold erc20_approve.
  run. rewrite !decide_True by done. run.
  unfold erc20_transfer.
  rewrite decide_True; [by rewrite <- !app_assoc|].
  change (balanceOf _ asset (this cfg)) with B. lia.
Qed.

(** *** The ledger after a transfer *)

Lemma balanceOf_set_balance token account v st token' account' :
  balanceOf (set_balance token account v st) token' account'
  = if decide ((token, account) = (token', account')) then v
    else balanceOf st token' account'.
Proof.
  unfold balanceOf, set_balance. simpl.
  rewrite lookup_insert. by case_decide.
Qed.

Lemma balanceOf_move_to token from to amount st :
  from <> to ->
  balanceOf (move token from to amount st) token to
  = balanceOf st token to + amount.
Proof.
  intros Hne. unfold move. rewrite !balanceOf_set_balance.
  rewrite decide_True by done. rewrite decide_False by congruence. done.
Qed.

Lemma balanceOf_move_from token from to amount st :
  from <> to ->
  balanceOf (move token from to amount st) token from
  = balanceOf st token from - amount.
Proof.
  intros Hne. unfold move. rewrite !balanceOf_set_balance.
  rewrite decide_False by congruence. by rewrite decide_True.
Qed.

Lemma balanceOf_add_log e st token account :
  balanceOf (add_log e st) token account = balanceOf st token account.
Proof. done. Qed.

Lemma balanceOf_set_allowance token owner spender v st token' account :
  balanceOf (set_allowance token owner spender v st) token' account
  = balanceOf st token' account.
Proof. done. Qed.

Lemma profit_facts_add_log e st :
  profit_facts (add_log e st)
  = profit_facts st ++ (if is_profit e then [e] else []).
Proof.
  unfold profit_facts, add_log. simpl. rewrite filter_app.
  f_equal. destruct e; done.
Qed.

(** *** VERIFY_SOLVENCY and REPAY *)

(** C3 (as amended). For a session that has completed its trade
    invocations, with [B] the balance of the borrowed asset and
    [debt = amount + premium]:
    - when [debt] does not fit 256 bits, the checked addition fails with an
      arithmetic panic;
    - when it fits and [B < debt], the session fails with the
      [InsufficientRepayment] reason;
    in both cases the transaction leaves the chain as it was;
    - otherwise the session succeeds and has granted the pool an allowance
      of exactly [debt]. *)
Theorem solvency_check sender asset amount premium initiator params st
    minProfit st2 tr2 :
  reaches_settlement external_call cfg sender asset initiator params st
    minProfit st2 tr2 ->
  let session :=
    executeOperation external_call cfg sender asset amount premium initiator
      params in
  let B := balanceOf st2 asset (this cfg) in
  let debt := amount + premium in
  (ABI.UINT256_MAX < debt ->
     session st [] = Fail (Panic 0x11) tr2 /\ transact session st = st)
  /\ (debt <= ABI.UINT256_MAX -> B < debt ->
        session st []
        = Fail (Revert "Insufficient funds to repay")
               (tr2 ++ [CallBalanceOf asset (this cfg)])
        /\ classify (Revert "Insufficient funds to repay")
           = InsufficientRepayment
        /\ transact session st = st)
  /\ (debt <= ABI.UINT256_MAX -> debt <= B ->
        exists st' tr',
          session st [] = Ok true st' tr'
          /\ CallApprove asset (pool cfg) debt ∈ tr'
          /\ allowance st' asset (this cfg) (pool cfg) = debt).
Proof.
  intros Hreach session B debt.
  pose proof (executeOperation_settle _ _ amount premium _ _ _ _ _ _ Hreach)
    as Hrun.
  fold session in Hrun.
  split; [|split].
  - intros Hover. unfold transact. rewrite Hrun.
    by rewrite settle_overflow.
  - intros Hfit Hlow. unfold transact. rewrite Hrun.
    by rewrite settle_insolvent.
  - intros Hfit Hsolvent. rewrite Hrun.
    destruct (decide (debt < B /\ minProfit <= B - debt)) as [[Hlt Hmin]|Hno].
    + rewrite settle_distribute by done. do 2 eexists. split; [done|].
      split; [set_solver|].
      unfold allowance, add_log, move, set_balance, set_allowance. simpl.
      by rewrite lookup_insert_eq.
    + rewrite settle_retain by (try done; fold B debt; lia).
      do 2 eexists. split; [done|]. split; [set_solver|].
      unfold allowance, add_log, set_allowance. simpl.
      by rewrite lookup_insert_eq.
Qed.

(** *** DISTRIBUTE *)

(** C1 (as amended). For a session that reaches DISTRIBUTE with balance
    [B] and [debt = amount + premium] (so [debt <= B]):
    - if the surplus [B - debt] is positive and at least [minProfit], exactly
      the surplus is transferred to the operator, one profit fact is
      recorded, and the contract keeps [debt];
    - if the surplus is zero or below [minProfit], there is no transfer and
      no profit fact, and every balance is as the trades left it. *)
Theorem distribute_surplus sender asset amount premium initiator params st
    minProfit st2 tr2 :
  reaches_settlement external_call cfg sender asset initiator params st
    minProfit st2 tr2 ->
  let session :=
    executeOperation external_call cfg sender asset amount premium initiator
      params in
  let B := balanceOf st2 asset (this cfg) in
  let debt := amount + premium in
  debt <= ABI.UINT256_MAX -> debt <= B ->
  (debt < B /\ minProfit <= B - debt ->
     exists st' tr',
       session st [] = Ok true st' tr'
       /\ transfers (session st [])
          = transfers (Ok tt st2 tr2)
              ++ [CallTransfer asset (owner cfg) (B - debt)]
       /\ profit_facts st'
          = profit_facts st2 ++ [ArbitrageProfit asset (B - debt)]
       /\ (owner cfg <> this cfg ->
           balanceOf st' asset (owner cfg)
           = balanceOf st2 asset (owner cfg) + (B - debt)
           /\ balanceOf st' asset (this cfg) = debt))
  /\ (B = debt \/ B - debt < minProfit ->
        exists st' tr',
          session st [] = Ok true st' tr'
          /\ transfers (session st []) = transfers (Ok tt st2 tr2)
          /\ profit_facts st' = profit_facts st2
          /\ balances st' = balances st2).
Proof.
  intros Hreach session B debt Hfit Hsolvent.
  pose proof (executeOperation_settle _ _ amount premium _ _ _ _ _ _ Hreach)
    as Hrun.
  fold session in Hrun. rewrite Hrun. split.
  - intros [Hlt Hmin]. rewrite settle_distribute by done.
    do 2 eexists. split; [done|]. split; [|split].
    + unfold transfers, result_trace. by rewrite !filter_app.
    + rewrite profit_facts_add_log. simpl. f_equal.
      unfold profit_facts. simpl. rewrite filter_app. simpl.
      by rewrite app_nil_r.
    + intros Hne. split.
      * rewrite balanceOf_add_log, balanceOf_move_to by done.
        by rewrite balanceOf_set_allowance, balanceOf_add_log.
      * rewrite balanceOf_add_log, balanceOf_move_from by done.
        rewrite balanceOf_set_allowance, balanceOf_add_log.
        fold B. lia.
  - intros Hkeep. rewrite settle_retain by done.
    do 2 eexists. split; [done|]. split; [|split].
    + unfold transfers, result_trace. rewrite !filter_app. simpl.
      by rewrite !app_nil_r.
    + unfold profit_facts. simpl. rewrite filter_app. simpl.
      by rewrite app_nil_r.
    + done.
Qed.

(** *** DECODE and EXECUTE_TRADES *)

Lemma trade_loop_trace path swapData n : forall i st tr,
  exists ext,
    result_trace (trade_loop external_call cfg path swapData i n st tr)
    = tr ++ ext
    /\ Forall (in_bounds path swapData) ext.
Proof.
  induction n as [|n IH]; intros i st tr.
  - exists []. by rewrite app_nil_r.
  - cbn [trade_loop]. unfold index, low_level_call. run.
    destruct (path !! i) as [target|] eqn:Hp;
      [|exists []; by rewrite app_nil_r].
    destruct (swapData !! i) as [payload|] eqn:Hd;
      [|exists []; by rewrite app_nil_r].
    run. destruct (external_call _ target payload st) as [st'|].
    + destruct (IH (S i) st' (tr ++ [CallTarget i target payload true]))
        as (ext & -> & Hext).
      exists (CallTarget i target payload true :: ext).
      rewrite <- app_assoc. split; [done|].
      by apply Forall_cons.
    + run. exists [CallTarget i target payload false].
      split; [done|]. by apply Forall_singleton.
Qed.

Lemma settle_trace asset amount premium minProfit st tr :
  exists ext,
    result_trace (settle cfg asset amount premium minProfit st tr) = tr ++ ext
    /\ Forall (fun a => is_invocation a = false) ext.
Proof.
  unfold settle. run.
  destruct (decide (amount + premium <= ABI.UINT256_MAX));
    [|exists []; by rewrite app_nil_r].
  run. destruct (bool_decide _);
    [|exists [CallBalanceOf asset (this cfg)]; split; [done|];
      by apply Forall_singleton].
  run. unfold erc20_approve. run.
  destruct (decide (amount + premium < balanceOf st asset (this cfg))).
  - destruct (decide _).
    + run. destruct (erc20_transfer _ _ _ _ _).
      * run. eexists. rewrite <- !app_assoc. split; [done|].
        repeat constructor.
      * eexists. rewrite <- !app_assoc. split; [done|].
        repeat constructor.
    + run. eexists. rewrite <- !app_assoc. split; [done|].
      repeat constructor.
  - run. eexists. rewrite <- !app_assoc. split; [done|].
    repeat constructor.
Qed.

Lemma trade_loop_missing_target path swapData n : forall i st tr,
  (i <= length path < i + n)%nat ->
  exists f tr',
    trade_loop external_call cfg path swapData i n st tr = Fail f tr'.
Proof.
  induction n as [|n IH]; intros i st tr Hi; [lia|].
  cbn [trade_loop]. unfold index, low_level_call. run.
  destruct (path !! i) as [target|] eqn:Hp; [|by do 2 eexists].
  destruct (swapData !! i) as [payload|]; [|by do 2 eexists].
  run. destruct (external_call _ target payload st) as [st'|].
  - apply IH. apply lookup_lt_Some in Hp. lia.
  - run. by do 2 eexists.
Qed.

Lemma trade_loop_surplus_targets path swapData n : forall i st tr,
  (i + n <= length swapData)%nat ->
  trade_loop external_call cfg path swapData i n st tr
  = trade_loop external_call cfg (take (length swapData) path) swapData
      i n st tr.
Proof.
  induction n as [|n IH]; intros i st tr Hi; [done|].
  cbn [trade_loop]. unfold index, low_level_call. run.
  rewrite lookup_take_lt by lia.
  destruct (path !! i) as [target|]; [|done].
  destruct (swapData !! i) as [payload|]; [|done].
  run. destruct (external_call _ target payload st) as [st'|]; [|done].
  apply IH. lia.
Qed.

Lemma trade_loop_pairs path swapData n : forall i st tr,
  (i + n = length swapData)%nat ->
  (i <= length path)%nat \/ (length swapData <= length path)%nat ->
  trade_loop external_call cfg path swapData i n st tr
  = let pairs := zip (drop i path) (drop i swapData) in
    let made := tr ++ Trades.call_trace external_call (this cfg) i pairs st in
    match Trades.fold_calls external_call (this cfg) pairs st with
    | Some st' =>
        if decide (length swapData <= length path)%nat
        then Ok tt st' made
        else Fail (Panic 0x32) made
    | None => Fail (Revert "Swap failed") made
    end.
Proof.
  induction n as [|n IH]; intros i st tr Hi Hfit; cbv zeta.
  - rewrite (drop_ge swapData) by lia. rewrite zip_with_nil_r.
    cbn [Trades.fold_calls Trades.call_trace trade_loop].
    rewrite decide_True by lia. by rewrite app_nil_r.
  - destruct (lookup_lt_is_Some_2 swapData i) as [payload Hd]; [lia|].
    rewrite (drop_S _ _ _ Hd).
    cbn [trade_loop]. unfold index, low_level_call. run.
    destruct (path !! i) as [target|] eqn:Hp.
    + rewrite (drop_S _ _ _ Hp). rewrite Hd. run.
      cbn [zip_with Trades.fold_calls Trades.call_trace].
      apply lookup_lt_Some in Hp.
      destruct (external_call _ target payload st) as [st1|].
      * rewrite IH by lia. cbv zeta.
        destruct (Trades.fold_calls _ _ _ st1);
          [destruct (decide _)|]; by rewrite <- app_assoc.
      * run. done.
    + apply lookup_ge_None in Hp. rewrite (drop_ge path) by lia.
      cbn [zip_with Trades.fold_calls Trades.call_trace].
      rewrite decide_False by lia. by rewrite app_nil_r.
Qed.

(** C6 (as amended). DECODE does not compare the two lengths.
    - Every invocation of a session uses an index inside both decoded
      sequences and invokes the pair found there.
    - A blob with fewer targets than payloads makes every session fail, and
      nothing persists.
    - A blob with more targets than payloads is not rejected: the session
      runs as with any blob that holds only the first targets.
    - An authorized session is not stopped before its trades: it invokes
      the pairs (target i, payload i) in order, as far as both sequences
      go, each on the state the previous one left. If one of them does not
      succeed, the session fails there with the [SwapFailed] reason. If
      they all succeed, it goes on to the settlement steps when there are
      at least as many targets as payloads, and fails with the
      index-out-of-range panic, after exactly these invocations, when
      there are fewer. *)
Theorem trade_indices_in_bounds sender asset amount premium initiator params :
  let session p :=
    executeOperation external_call cfg sender asset amount premium initiator
      p in
  (forall st a,
     a ∈ invocations (session params st []) ->
     exists minProfit path swapData,
       ABI.decode params = Some (minProfit, path, swapData)
       /\ in_bounds path swapData a)
  /\ (forall minProfit path swapData st,
        ABI.decode params = Some (minProfit, path, swapData) ->
        (length path < length swapData)%nat ->
        (exists f tr, session params st [] = Fail f tr)
        /\ transact (session params) st = st)
  /\ (forall minProfit path swapData params' st,
        ABI.decode params = Some (minProfit, path, swapData) ->
        (length swapData <= length path)%nat ->
        ABI.decode params'
        = Some (minProfit, take (length swapData) path, swapData) ->
        session params st [] = session params' st [])
  /\ (forall minProfit path swapData st,
        sender = pool cfg -> initiator = owner cfg ->
        ABI.decode params = Some (minProfit, path, swapData) ->
        let st0 :=
          add_log (DebugLog "Initial balance" (balanceOf st asset (this cfg)))
            st in
        let made :=
          [CallBalanceOf asset (this cfg); Decoded]
            ++ Trades.call_trace external_call (this cfg) 0
                 (zip path swapData) st0 in
        session params st []
        = match Trades.fold_calls external_call (this cfg)
                  (zip path swapData) st0 with
          | Some st2 =>
              if decide (length swapData <= length path)%nat
              then settle cfg asset amount premium minProfit st2 made
              else Fail (Panic 0x32) made
          | None => Fail (Revert "Swap failed") made
          end).
Proof.
  intros session. split; [|split; [|split]].
  - intros st a Ha. unfold invocations in Ha.
    apply list_elem_of_filter in Ha as [Hinv Ha].
    revert Ha. unfold session, executeOperation. run.
    destruct (bool_decide (sender = pool cfg));
      [|intros Ha; by apply elem_of_nil in Ha].
    run. destruct (bool_decide (initiator = owner cfg));
      [|intros Ha; by apply elem_of_nil in Ha].
    run. destruct (ABI.decode params) as [[[m path] swapData]|] eqn:Hdec.
    + run. unfold execute_trades.
      destruct (trade_loop_trace path swapData (length swapData) 0
                  (add_log (DebugLog "Initial balance"
                     (balanceOf st asset (this cfg))) st)
                  (([] ++ [CallBalanceOf asset (this cfg)]) ++ [Decoded]))
        as (ext & Htr & Hext).
      destruct (trade_loop _ _ _ _ _ _ _ _) as [[] st2 tr2|f tr2];
        simpl in Htr; subst tr2.
      * destruct (settle_trace asset amount premium m st2
                    ([CallBalanceOf asset (this cfg); Decoded] ++ ext))
          as (ext' & Htr' & Hext').
        simpl in Htr'. simpl. rewrite Htr'. intros Ha.
        exists m, path, swapData. split; [done|].
        change (a ∈ [CallBalanceOf asset (this cfg); Decoded] ++ ext ++ ext')
          in Ha.
        rewrite !elem_of_app in Ha. destruct Ha as [Ha|[Ha|Ha]].
        -- apply list_elem_of_In in Ha. simpl in Ha.
           destruct Ha as [<-|[<-|[]]]; done.
        -- by apply (proj1 (Forall_forall _ _) Hext).
        -- apply (proj1 (Forall_forall _ _) Hext') in Ha. congruence.
      * simpl. intros Ha. exists m, path, swapData. split; [done|].
        change (a ∈ [CallBalanceOf asset (this cfg); Decoded] ++ ext) in Ha.
        rewrite elem_of_app in Ha. destruct Ha as [Ha|Ha].
        -- apply list_elem_of_In in Ha. simpl in Ha.
           destruct Ha as [<-|[<-|[]]]; done.
        -- by apply (proj1 (Forall_forall _ _) Hext).
    + simpl. intros Ha. apply list_elem_of_In in Ha. simpl in Ha.
      destruct Ha as [<-|[]]. done.
  - intros m path swapData st Hdec Hshort.
    assert (exists f tr, session params st [] = Fail f tr) as Hfail.
    { unfold session, executeOperation. run.
      destruct (bool_decide (sender = pool cfg)); [|by do 2 eexists].
      run. destruct (bool_decide (initiator = owner cfg)); [|by do 2 eexists].
      run. rewrite Hdec. run. unfold execute_trades.
      assert (0 <= length path < 0 + length swapData)%nat as Hi by lia.
      destruct (trade_loop_missing_target path swapData (length swapData) 0
                  (add_log (DebugLog "Initial balance"
                     (balanceOf st asset (this cfg))) st)
                  (([] ++ [CallBalanceOf asset (this cfg)]) ++ [Decoded]) Hi)
        as (f & tr' & ->).
      by do 2 eexists. }
    split; [done|]. destruct Hfail as (f & tr & Hfail).
    unfold transact. by rewrite Hfail.
  - intros m path swapData params' st Hdec Hlong Hdec'.
    unfold session, executeOperation. run.
    destruct (bool_decide (sender = pool cfg)); [|done].
    run. destruct (bool_decide (initiator = owner cfg)); [|done].
    run. rewrite Hdec, Hdec'. run. unfold execute_trades.
    by rewrite trade_loop_surplus_targets by lia.
  - intros m path swapData st Hs Hi Hdec st0 made.
    unfold session, executeOperation. run.
    rewrite (bool_decide_eq_true_2 _ Hs), (bool_decide_eq_true_2 _ Hi).
    run. rewrite Hdec. run. unfold execute_trades.
    rewrite trade_loop_pairs by lia. cbv zeta. cbn [drop app].
    fold st0. unfold made. cbn [app].
    destruct (Trades.fold_calls _ _ _ st0); [|done].
    by destruct (decide _).
Qed.

(** *** The operator-only actions *)

Lemma fundContract_onlyOwner sender token amount st :
  sender <> owner cfg ->
  fundContract cfg sender token amount st [] = Fail (Revert "Only owner") [].
Proof.
  intros Hne. unfold fundContract, onlyOwner. run.
  by rewrite (bool_decide_eq_false_2 _ Hne).
Qed.

Lemma withdrawToken_onlyOwner sender token st :
  sender <> owner cfg ->
  withdrawToken cfg sender token st [] = Fail (Revert "Only owner") [].
Proof.
  intros Hne. unfold withdrawToken, onlyOwner. run.
  by rewrite (bool_decide_eq_false_2 _ Hne).
Qed.

(** C7 (the code at the failing input). The contract has no
    [emergencyWithdraw]: a call with that signature matches no function
    and reverts without data for every caller, the operator included, so
    no such operator-only action is exposed. The two actions the contract
    does have, [fundContract] and [withdrawToken], revert with the owner
    check's reason for any other caller, and the chain stays as it was. *)
Theorem emergencyWithdraw_not_exposed sender token amount st :
  dispatch external_call cfg sender "emergencyWithdraw(address,uint256)"
    [VAddress token; VUint amount] st []
  = Fail RevertNoData []
  /\ classify RevertNoData <> Unauthorized
  /\ (sender = owner cfg \/
      (let fund :=
         dispatch external_call cfg sender "fundContract(address,uint256)"
           [VAddress token; VUint amount] in
       let withdraw :=
         dispatch external_call cfg sender "withdrawToken(address)"
           [VAddress token] in
       fund st [] = Fail (Revert "Only owner") []
       /\ withdraw st [] = Fail (Revert "Only owner") []
       /\ classify (Revert "Only owner") = Unauthorized
       /\ transact fund st = st /\ transact withdraw st = st)).
Proof.
  split; [done|]. split; [done|].
  destruct (decide (sender = owner cfg)) as [|Hne]; [by left|right].
  assert (dispatch external_call cfg sender "fundContract(address,uint256)"
            [VAddress token; VUint amount] st []
          = Fail (Revert "Only owner") []) as Hfund.
  { unfold dispatch. simpl. run. by rewrite fundContract_onlyOwner. }
  assert (dispatch external_call cfg sender "withdrawToken(address)"
            [VAddress token] st []
          = Fail (Revert "Only owner") []) as Hwd.
  { unfold dispatch. simpl. run. by rewrite withdrawToken_onlyOwner. }
  unfold transact. rewrite Hfund, Hwd. done.
Qed.

End settlement.

(* --------------------------------------------------------------------- *)
(** ** The settlement session on the concrete chain                      *)
(* --------------------------------------------------------------------- *)

Section settlement_runs.
Import Chain Contract Observe Fixture.

(** One trade on venue A, which pays 60, with a loan of 100 and a premium
    of 1: the contract ends the trades with 161. *)
Lemma reaches_settlement_one_trade :
  reaches_settlement venues cfg lending_pool token operator
    (ABI.encode 10 [venue_a] [[]]) funded 10
    (set_balance token settlement 161
       (add_log (DebugLog "Initial balance" 101) funded))
    [CallBalanceOf token settlement; Decoded; CallTarget 0 venue_a [] true].
Proof.
  split; [reflexivity|]. split; [reflexivity|].
  exists [venue_a], [[]]. split; vm_compute; reflexivity.
Defined.

Lemma unauthorized_session_rejected_witness :
  let session :=
    executeOperation venues cfg stranger token 100 1 operator
      (ABI.encode 10 [venue_a] [[]]) in
  session funded [] = Fail (Revert "Unauthorized") []
  /\ classify (Revert "Unauthorized") = Unauthorized
  /\ transact session funded = funded.
Proof.
  apply (unauthorized_session_rejected venues cfg stranger token 100 1
           operator (ABI.encode 10 [venue_a] [[]]) funded).
  left. vm_compute. discriminate.
Defined.

Lemma solvency_check_witness :
  let session :=
    executeOperation venues cfg lending_pool token 200 1 operator
      (ABI.encode 10 [venue_a] [[]]) in
  session funded []
  = Fail (Revert "Insufficient funds to repay")
         [CallBalanceOf token settlement; Decoded;
          CallTarget 0 venue_a [] true; CallBalanceOf token settlement]
  /\ transact session funded = funded.
Proof.
  destruct (solvency_check venues cfg lending_pool token 200 1 operator
              (ABI.encode 10 [venue_a] [[]]) funded 10 _ _
              reaches_settlement_one_trade) as (_ & Hlow & _).
  destruct Hlow as (Hrun & _ & Hkeep).
  - vm_compute. discriminate.
  - vm_compute. reflexivity.
  - split; [exact Hrun | exact Hkeep].
Defined.

(** The claim without the amendment: with [amount + premium] beyond 256
    bits the balance is below the debt, and the session fails with an
    arithmetic panic, which is not the [InsufficientRepayment] reason. *)
Lemma solvency_check_counterexample :
  let session :=
    executeOperation venues cfg lending_pool token ABI.UINT256_MAX 1 operator
      (ABI.encode 10 [] []) in
  balanceOf funded token settlement < ABI.UINT256_MAX + 1
  /\ session funded [] = Fail (Panic 0x11) [CallBalanceOf token settlement; Decoded]
  /\ classify (Panic 0x11) <> InsufficientRepayment.
Proof.
  split; [vm_compute; reflexivity|]. split; [vm_compute; reflexivity|].
  discriminate.
Qed.

Lemma distribute_surplus_witness :
  let session :=
    executeOperation venues cfg lending_pool token 100 1 operator
      (ABI.encode 10 [venue_a] [[]]) in
  exists st' tr',
    session funded [] = Ok true st' tr'
    /\ transfers (session funded []) = [CallTransfer token operator 60]
    /\ profit_facts st' = [ArbitrageProfit token 60]
    /\ balanceOf st' token operator = 60
    /\ balanceOf st' token settlement = 101.
Proof.
  destruct (distribute_surplus venues cfg lending_pool token 100 1 operator
              (ABI.encode 10 [venue_a] [[]]) funded 10 _ _
              reaches_settlement_one_trade) as (Hpay & _).
  - vm_compute. discriminate.
  - vm_compute. discriminate.
  - destruct Hpay as (st' & tr' & Hrun & Htr & Hfacts & Hbal).
    + split; vm_compute; [reflexivity | discriminate].
    + destruct Hbal as [Hop Hself]; [vm_compute; discriminate|].
      exists st', tr'. repeat split; assumption.
Defined.

(** The claim without the amendment: the balance equals the debt and
    [minProfit] is zero, so the surplus (zero) is at least [minProfit];
    yet no transfer is made and no profit fact is recorded. *)
Lemma distribute_surplus_counterexample :
  let session :=
    executeOperation venues cfg lending_pool token 100 1 operator
      (ABI.encode 0 [] []) in
  0 <= balanceOf funded token settlement - (100 + 1)
  /\ transfers (session funded []) = []
  /\ profit_facts (transact session funded) = []
  /\ logs (transact session funded)
     = [DebugLog "Initial balance" 101; DebugLog "Final balance" 101].
Proof.
  split; [vm_compute; discriminate|]. repeat split; vm_compute; reflexivity.
Qed.

Lemma trade_indices_in_bounds_witness :
  let session p :=
    executeOperation venues cfg lending_pool token 100 1 operator p in
  transact (session (ABI.encode 10 [venue_a] [[]; []])) funded = funded
  /\ session (ABI.encode 10 [venue_a; venue_b] [[]]) funded []
     = session (ABI.encode 10 [venue_a] [[]]) funded []
  /\ session (ABI.encode 10 [venue_a] [[]; []]) funded []
     = Fail (Panic 0x32)
         [CallBalanceOf token settlement; Decoded; CallTarget 0 venue_a [] true]
  /\ session (ABI.encode 10 [stranger] [[]; []]) funded []
     = Fail (Revert "Swap failed")
         [CallBalanceOf token settlement; Decoded; CallTarget 0 stranger [] false].
Proof.
  split; [|split; [|split]].
  - apply (trade_indices_in_bounds venues cfg lending_pool token 100 1
             operator (ABI.encode 10 [venue_a] [[]; []]))
      with (minProfit := 10) (path := [venue_a]) (swapData := [[]; []]).
    + vm_compute. reflexivity.
    + simpl. lia.
  - apply (trade_indices_in_bounds venues cfg lending_pool token 100 1
             operator (ABI.encode 10 [venue_a; venue_b] [[]]))
      with (minProfit := 10) (path := [venue_a; venue_b]) (swapData := [[]]).
    + vm_compute. reflexivity.
    + simpl. lia.
    + vm_compute. reflexivity.
  - etransitivity.
    + apply (proj2 (proj2 (proj2
               (trade_indices_in_bounds venues cfg lending_pool token 100 1
                  operator (ABI.encode 10 [venue_a] [[]; []]))))
               10 [venue_a] [[]; []] funded eq_refl eq_refl).
      vm_compute. reflexivity.
    + vm_compute. reflexivity.
  - etransitivity.
    + apply (proj2 (proj2 (proj2
               (trade_indices_in_bounds venues cfg lending_pool token 100 1
                  operator (ABI.encode 10 [stranger] [[]; []]))))
               10 [stranger] [[]; []] funded eq_refl eq_refl).
      vm_compute. reflexivity.
    + vm_compute. reflexivity.
Defined.

(** The claim without the amendment. A blob of one target and two payloads
    is rejected only after its first trade was invoked; a blob of two
    targets and one payload is not rejected at all. *)
Lemma trade_indices_in_bounds_counterexample :
  let session p :=
    executeOperation venues cfg lending_pool token 100 1 operator p in
  let short := ABI.encode 10 [venue_a] [[]; []] in
  let long := ABI.encode 10 [venue_a; venue_b] [[]] in
  ABI.decode short = Some (10, [venue_a], [[]; []])
  /\ session short funded []
     = Fail (Panic 0x32)
         [CallBalanceOf token settlement; Decoded; CallTarget 0 venue_a [] true]
  /\ invocations (session short funded []) = [CallTarget 0 venue_a [] true]
  /\ ABI.decode long = Some (10, [venue_a; venue_b], [[]])
  /\ invocations (session long funded []) = [CallTarget 0 venue_a [] true]
  /\ transfers (session long funded []) = [CallTransfer token operator 60]
  /\ balanceOf (transact (session long) funded) token operator = 60.
Proof.
  repeat split; vm_compute; reflexivity.
Qed.

End settlement_runs.

(* --------------------------------------------------------------------- *)
(** ** The opportunity evaluator                                          *)
(* --------------------------------------------------------------------- *)

Section evaluator.
Import Bot Documented.
Local Open Scope Z_scope.

Lemma analyzeOpportunity_cases qa qb n s1 s2 tA tB :
  0 < qa -> 0 < qb -> 0 <= n ->
  analyzeOpportunity n (mkPrice qa s1) (mkPrice qb s2) tA tB
  = if decide (diffBps qa qb < 50) then Normal None
    else if decide (documented_profit qa qb n < MIN_PROFIT_WEI) then Normal None
    else Normal (Some {|
      tokenA := tA; tokenB := tB; amount := n;
      buyFromDex := if decide (qa > qb) then s2 else s1;
      sellToDex := if decide (qa > qb) then s1 else s2;
      buyPrice := Z.min qa qb;
      sellPrice := Z.max qa qb;
      estimatedProfit := documented_profit qa qb n;
      priceDifference := Qmake (diffBps qa qb) 100;
      gasEstimate := 200000 |}).
Proof.
  intros Ha Hb Hn. unfold analyzeOpportunity, diffBps, documented_profit.
  cbn [quote_amount source]. unfold bigint_div, MIN_PRICE_DIFFERENCE.
  rewrite (Z.quot_div_nonneg (n * 9) 10000) by lia.
  destruct (decide (qa > qb)) as [Hgt|Hle].
  - rewrite decide_False by lia. cbn [mbind completion_bind].
    rewrite Z.quot_div_nonneg by lia.
    replace (Z.abs (qa - qb)) with (qa - qb) by lia.
    replace (Z.max qa qb) with qa by lia.
    replace (Z.min qa qb) with qb by lia.
    done.
  - rewrite decide_False by lia. cbn [mbind completion_bind].
    rewrite Z.quot_div_nonneg by lia.
    replace (Z.abs (qa - qb)) with (qb - qa) by lia.
    replace (Z.max qa qb) with qb by lia.
    replace (Z.min qa qb) with qa by lia.
    done.
Qed.

Lemma unsigned_profit_exact qa qb n :
  0 < qa -> 0 < qb -> 0 <= n -> 0 <= documented_profit qa qb n ->
  Z.of_N (unsigned_profit (Z.to_N qa) (Z.to_N qb) (Z.to_N n))
  = documented_profit qa qb n.
Proof.
  intros Ha Hb Hn Hp. unfold unsigned_profit, documented_profit in *.
  rewrite !N2Z.inj_sub_max, N2Z.inj_div, N2Z.inj_mul, N2Z.inj_max, N2Z.inj_min.
  rewrite !Z2N.id by lia. simpl Z.of_N.
  pose proof (Z.div_pos (n * 9) 10000). lia.
Qed.

(** C4. For positive quotes [qa], [qb] and a notional [n], the evaluator
    returns an opportunity exactly when the divergence in basis points is at
    least 50 and the profit after the loan fee is at least [MIN_PROFIT_WEI]
    (0.1 unit at 18 decimals), and returns none otherwise (never throwing);
    the opportunity's [estimatedProfit] is the documented formula, which is
    then also its value in unsigned arithmetic; below the divergence
    threshold the result is none whatever the amounts. *)
Theorem evaluator_threshold qa qb n s1 s2 tA tB :
  0 < qa -> 0 < qb -> 0 <= n ->
  let r := analyzeOpportunity n (mkPrice qa s1) (mkPrice qb s2) tA tB in
  ((exists o, r = Normal (Some o))
     <-> diffBps qa qb >= 50 /\ documented_profit qa qb n >= MIN_PROFIT_WEI)
  /\ (forall o, r = Normal (Some o) ->
        estimatedProfit o = documented_profit qa qb n
        /\ estimatedProfit o
           = Z.of_N (unsigned_profit (Z.to_N qa) (Z.to_N qb) (Z.to_N n)))
  /\ (diffBps qa qb < 50 -> r = Normal None)
  /\ ((forall o, r <> Normal (Some o)) -> r = Normal None)
  /\ MIN_PROFIT_WEI = 10 ^ 18 / 10.
Proof.
  intros Ha Hb Hn r. unfold r.
  rewrite (analyzeOpportunity_cases qa qb n s1 s2 tA tB Ha Hb Hn).
  assert (0 < MIN_PROFIT_WEI) as Hmin by done.
  destruct (decide (diffBps qa qb < 50)) as [Hd|Hd].
  { split_and!; [|done|done|done|done].
    split; [by intros [o Ho]|lia]. }
  destruct (decide (documented_profit qa qb n < MIN_PROFIT_WEI)) as [Hp|Hp].
  { split_and!; [|done|done|done|done].
    split; [by intros [o Ho]|lia]. }
  split_and!.
  - split; [lia|by eexists].
  - intros o [= <-]. cbn [estimatedProfit]. split; [done|].
    symmetry. apply unsigned_profit_exact; lia.
  - lia.
  - intros Hnone. exfalso. by eapply Hnone.
  - done.
Qed.

Lemma evaluator_threshold_witness :
  let r := analyzeOpportunity DEFAULT_AMOUNT
             (mkPrice (10 * 10 ^ 18) "uniswap")
             (mkPrice (1060 * 10 ^ 16) "sushiswap") DAI WETH in
  (exists o, r = Normal (Some o))
  /\ (forall o, r = Normal (Some o) -> estimatedProfit o = 591 * 10 ^ 15).
Proof.
  pose proof (evaluator_threshold (10 * 10 ^ 18) (1060 * 10 ^ 16)
                DEFAULT_AMOUNT "uniswap" "sushiswap" DAI WETH) as H.
  destruct H as (Hiff & Hval & _); [done | done | done |].
  split.
  - apply Hiff. split; vm_compute; discriminate.
  - intros o Ho. by destruct (Hval o Ho) as [-> _].
Defined.

(** The two scenarios of the design, at 18 decimals: quotes of 10.00 and
    10.60 for a notional of 10 diverge by 566 basis points and leave 0.591
    after the fee, bought on the first venue and sold on the second; quotes
    of 10.00 and 10.02 are below the threshold. *)
Example evaluator_scenario_profitable :
  analyzeOpportunity DEFAULT_AMOUNT
    (mkPrice (10 * 10 ^ 18) "uniswap") (mkPrice (1060 * 10 ^ 16) "sushiswap")
    DAI WETH
  = Normal (Some {|
      tokenA := DAI; tokenB := WETH; amount := DEFAULT_AMOUNT;
      buyFromDex := "uniswap"; sellToDex := "sushiswap";
      buyPrice := 10 * 10 ^ 18; sellPrice := 1060 * 10 ^ 16;
      estimatedProfit := 591 * 10 ^ 15;
      priceDifference := Qmake 566 100;
      gasEstimate := 200000 |}).
Proof. vm_compute. reflexivity. Qed.

Example evaluator_scenario_below_threshold :
  analyzeOpportunity DEFAULT_AMOUNT
    (mkPrice (10 * 10 ^ 18) "uniswap") (mkPrice (1002 * 10 ^ 16) "sushiswap")
    DAI WETH
  = Normal None.
Proof. vm_compute. reflexivity. Qed.

End evaluator.

(* --------------------------------------------------------------------- *)
(** ** The instruction blob                                               *)
(* --------------------------------------------------------------------- *)

Section instruction_blob.
Import Bot ABI.

(** C5. For a minimum profit in [uint256], targets that are addresses and
    payloads of any content (of a total size the decoder admits, below
    2^64 bytes), the off-chain encoder produces a blob that the on-chain
    decoder maps back to the same triple, and re-encoding what the decoder
    returns for that blob gives the blob again. The lengths of the two
    sequences need not even match. *)
Theorem instruction_blob_round_trip (minimumProfit : Z) targets payloads :
  (0 <= minimumProfit <= Z.of_N UINT256_MAX)%Z ->
  Forall (fun a => a <= ADDRESS_MAX) targets ->
  len (encode (Z.to_N minimumProfit) targets payloads) <= UINT64_MAX ->
  exists blob,
    AbiCoder_encode minimumProfit targets payloads = Normal blob
    /\ decode blob = Some (Z.to_N minimumProfit, targets, payloads)
    /\ (forall m t p,
          decode blob = Some (m, t, p) ->
          AbiCoder_encode (Z.of_N m) t p = Normal blob).
Proof.
  intros Hv Ht Hlen.
  exists (encode (Z.to_N minimumProfit) targets payloads).
  assert (decode (encode (Z.to_N minimumProfit) targets payloads)
          = Some (Z.to_N minimumProfit, targets, payloads)) as Hdec.
  { apply decode_encode. split; [lia|done]. }
  split; [|split].
  - unfold AbiCoder_encode. by rewrite decide_True.
  - done.
  - intros m t p Hm. rewrite Hdec in Hm. injection Hm as <- <- <-.
    unfold AbiCoder_encode. rewrite Z2N.id by lia.
    by rewrite decide_True.
Qed.

Lemma router_is_address (v : string) :
  (if decide (v = "uniswap"%string) then UNISWAP_V3_ROUTER else SUSHISWAP_ROUTER)
  <= ADDRESS_MAX.
Proof. destruct (decide _); vm_compute; discriminate. Qed.

(** What the bot sends is what the contract reads: the estimated profit
    as minimum profit, the two routers, and two empty payloads. *)
Lemma encodeArbitrageParams_decodes opportunity :
  (0 <= estimatedProfit opportunity <= Z.of_N UINT256_MAX)%Z ->
  exists blob,
    encodeArbitrageParams opportunity = Normal blob
    /\ decode blob
       = Some (Z.to_N (estimatedProfit opportunity),
               [ (if decide (buyFromDex opportunity = "uniswap"%string)
                  then UNISWAP_V3_ROUTER else SUSHISWAP_ROUTER);
                 (if decide (sellToDex opportunity = "uniswap"%string)
                  then UNISWAP_V3_ROUTER else SUSHISWAP_ROUTER) ],
               [ []; [] ]).
Proof.
  intros Hv. unfold encodeArbitrageParams, AbiCoder_encode.
  rewrite decide_True by done. eexists. split; [done|].
  apply decode_encode. split; [lia|]. split.
  - repeat constructor; apply router_is_address.
  - unfold encode, enc_address_array, enc_bytes_array, tails, enc_bytes,
      pad_right.
    cbn [map concat heads length padding replicate app].
    rewrite ?len_app, ?len_word. vm_compute. discriminate.
Qed.

Lemma instruction_blob_round_trip_witness :
  exists blob,
    AbiCoder_encode (10 ^ 17) [UNISWAP_V3_ROUTER; SUSHISWAP_ROUTER]
      [[x01; x02]; []] = Normal blob
    /\ decode blob
       = Some (Z.to_N (10 ^ 17), [UNISWAP_V3_ROUTER; SUSHISWAP_ROUTER],
               [[x01; x02]; []])
    /\ (forall m t p,
          decode blob = Some (m, t, p) ->
          AbiCoder_encode (Z.of_N m) t p = Normal blob).
Proof.
  apply instruction_blob_round_trip.
  - vm_compute. split; discriminate.
  - repeat constructor; vm_compute; discriminate.
  - vm_compute. discriminate.
Defined.

End instruction_blob.

(* --------------------------------------------------------------------- *)
(** ** The funding guard and the gas check                                *)
(* --------------------------------------------------------------------- *)

Section bot_cycle.
Import Chain Bot.
Local Open Scope Z_scope.

Variable d : deployment.

#[local] Ltac js :=
  repeat (progress (
    unfold mbind, JS_bind, mret, JS_ret, throw, try_catch, request, get_bot,
      set_bot, get_chain, read_balanceOf, send, await, lift;
    cbv beta iota)).

Lemma ensureContractFunding_funded s :
  parseUnits 5 18 <= Z.of_N (balanceOf (chain s) DAI (FLASH_ARBITRAGE d)) ->
  ensureContractFunding d s
  = (Normal tt,
     mkSystem (self s) (chain s)
       (requests s ++ [Call_balanceOf DAI (FLASH_ARBITRAGE d)])).
Proof.
  intros Hheld. unfold ensureContractFunding. js. cbn [chain].
  by rewrite decide_False by lia.
Qed.

Lemma ensureContractFunding_requests s :
  let after := snd (ensureContractFunding d s) in
  let approve :=
    Tx_approve DAI (FLASH_ARBITRAGE d) (parseUnits 10 18) in
  let fund := Tx_fundContract DAI (parseUnits 10 18) in
  transactions after = transactions s
  \/ (Z.of_N (balanceOf (chain s) DAI (FLASH_ARBITRAGE d)) < parseUnits 5 18
      /\ (transactions after = transactions s ++ [approve]
          \/ transactions after = transactions s ++ [approve; fund])).
Proof.
  unfold ensureContractFunding. js. cbn [chain requests].
  destruct (decide (_ < parseUnits 5 18)) as [Hlow|Hok]; js.
  - cbn [chain requests].
    destruct (decide (_ < parseUnits 10 18)) as [Hpoor|Hrich]; js.
    + left. unfold transactions. cbn [snd requests].
      rewrite !filter_app. cbn. by rewrite !app_nil_r.
    + right. split; [exact Hlow|]. unfold erc20_approve.
      cbn [chain requests self].
      destruct (fundContract_effect _ _ _ _); cbn [snd];
        [right|left]; unfold transactions; cbn [requests];
        rewrite !filter_app; cbn; rewrite ?app_nil_r, <- ?app_assoc;
        reflexivity.
  - left. unfold transactions. cbn [snd requests].
    rewrite !filter_app. cbn. by rewrite !app_nil_r.
Qed.

(** C8. When the settlement contract already holds the minimum working
    capital (5 DAI), [ensureContractFunding] only reads that balance: it
    returns normally, submits no transaction, and leaves the ledger
    (balances and allowances) as it was. It submits transactions only when
    the balance is below the minimum, and then they are the approval,
    followed by the funding call unless that call is refused before it is
    sent. *)
Theorem ensureContractFunding_idempotent s :
  let held := Z.of_N (balanceOf (chain s) DAI (FLASH_ARBITRAGE d)) in
  let after := snd (ensureContractFunding d s) in
  let approve := Tx_approve DAI (FLASH_ARBITRAGE d) (parseUnits 10 18) in
  let fund := Tx_fundContract DAI (parseUnits 10 18) in
  (parseUnits 5 18 <= held ->
     fst (ensureContractFunding d s) = Normal tt
     /\ transactions after = transactions s
     /\ chain after = chain s)
  /\ (transactions after <> transactions s ->
        held < parseUnits 5 18
        /\ (transactions after = transactions s ++ [approve]
            \/ transactions after = transactions s ++ [approve; fund])).
Proof.
  intros held after approve fund. split.
  - intros Hheld. unfold after.
    rewrite ensureContractFunding_funded by done.
    split; [done|]. split; [|done].
    unfold transactions. cbn [snd requests]. rewrite filter_app. cbn.
    by rewrite app_nil_r.
  - intros Hsent.
    destruct (ensureContractFunding_requests s) as [Hsame|Hboth]; done.
Qed.

(** *** The gas check *)

Variable net : network.

Lemma getCurrentGasPrice_fallback s :
  fee_data net = None \/ fee_data net = Some None ->
  getCurrentGasPrice net s
  = (Normal (inject_Z 50),
     mkSystem (self s) (chain s) (requests s ++ [GetFeeData])).
Proof.
  intros [Hfee|Hfee]; unfold getCurrentGasPrice; js; by rewrite Hfee.
Qed.

(** C10. When the fee data cannot be fetched (the request fails, or its
    [gasPrice] is null), [getCurrentGasPrice] returns the fallback 50,
    which is above the ceiling of 25 gwei; the trading cycle then ends at
    the gas check, having asked the network for nothing but the fee data:
    no venue is queried and no loan is requested. *)
Theorem gas_fallback_skips_cycle s :
  fee_data net = None \/ fee_data net = Some None ->
  let after := snd (executeTradingCycle d net s) in
  fst (getCurrentGasPrice net s) = Normal (inject_Z 50)
  /\ gwei MAX_GAS_PRICE == inject_Z 25
  /\ gas_too_high (inject_Z 50) = true
  /\ fst (executeTradingCycle d net s) = Normal tt
  /\ requests after = requests s ++ [GetFeeData]
  /\ price_queries after = price_queries s
  /\ transactions after = transactions s.
Proof.
  intros Hfee after.
  assert (executeTradingCycle d net s
          = (Normal tt,
             mkSystem (self s) (chain s) (requests s ++ [GetFeeData])))
    as Hcycle.
  { unfold executeTradingCycle. unfold mbind at 1. unfold JS_bind.
    by rewrite getCurrentGasPrice_fallback. }
  unfold after. rewrite Hcycle, getCurrentGasPrice_fallback by done.
  split_and!; try done.
  - unfold price_queries. cbn [snd requests]. rewrite filter_app. cbn.
    by rewrite app_nil_r.
  - unfold transactions. cbn [snd requests]. rewrite filter_app. cbn.
    by rewrite app_nil_r.
Qed.

End bot_cycle.

(* --------------------------------------------------------------------- *)
(** ** The funding guard and the gas check on the concrete deployment    *)
(* --------------------------------------------------------------------- *)

Section bot_runs.
Import Chain Bot BotFixture.
Local Open Scope Z_scope.

Lemma ensureContractFunding_idempotent_witness :
  fst (ensureContractFunding deployed capitalised) = Normal tt
  /\ transactions (snd (ensureContractFunding deployed capitalised)) = []
  /\ chain (snd (ensureContractFunding deployed capitalised))
     = chain capitalised.
Proof.
  apply (ensureContractFunding_idempotent deployed capitalised).
  vm_compute. discriminate.
Defined.

(** With an empty contract and a funded wallet the guard approves, then
    funds; run again on the outcome, it submits nothing more. *)
Example ensureContractFunding_tops_up :
  let once := snd (ensureContractFunding deployed unfunded) in
  let twice := snd (ensureContractFunding deployed once) in
  transactions once
  = [Tx_approve DAI Fixture.settlement (parseUnits 10 18);
     Tx_fundContract DAI (parseUnits 10 18)]
  /\ balanceOf (chain once) DAI Fixture.settlement = Z.to_N (parseUnits 10 18)
  /\ balanceOf (chain once) DAI Fixture.operator = Z.to_N (parseUnits 10 18)
  /\ transactions twice = transactions once
  /\ chain twice = chain once.
Proof. repeat split; vm_compute; reflexivity. Qed.

Lemma gas_fallback_skips_cycle_witness :
  fst (executeTradingCycle deployed (quotes None) capitalised) = Normal tt
  /\ requests (snd (executeTradingCycle deployed (quotes None) capitalised))
     = [GetFeeData].
Proof.
  destruct (gas_fallback_skips_cycle deployed (quotes None) capitalised)
    as (_ & _ & _ & Hret & Hreq & _).
  - left. reflexivity.
  - split; [exact Hret | exact Hreq].
Defined.

(** With a gas price of 20 gwei the same cycle does go on: it asks both
    venues and requests the loan. *)
Example cycle_with_cheap_gas :
  let after :=
    snd (executeTradingCycle deployed
           (quotes (Some (Some (parseUnits 20 9)))) capitalised) in
  price_queries after
  = [QuoteExactInputSingle DAI WETH 3000 DEFAULT_AMOUNT;
     GetAmountsOut DEFAULT_AMOUNT [DAI; WETH]]
  /\ (exists params,
        transactions after
        = [Tx_flashLoanSimple Fixture.settlement DAI DEFAULT_AMOUNT params 0]
        /\ ABI.decode params
           = Some (Z.to_N (591 * 10 ^ 15),
                   [UNISWAP_V3_ROUTER; SUSHISWAP_ROUTER], [[]; []]))
  /\ profitHistory (self after) = [(1700000000000, 591)].
Proof.
  split; [vm_compute; reflexivity|]. split; [|vm_compute; reflexivity].
  eexists. split.
  - vm_compute. reflexivity.
  - vm_compute. reflexivity.
Qed.

End bot_runs.

(* --------------------------------------------------------------------- *)
(** ** The polling loop                                                   *)
(* --------------------------------------------------------------------- *)

Section orchestrator.
Import Orchestrator.

Lemma step_exited s e : exited s = true -> step s e = s.
Proof. intros H. unfold step. by rewrite H. Qed.

Lemma run_exited events : forall s, exited s = true -> run s events = s.
Proof.
  induction events as [|e events IH]; intros s H; [done|].
  unfold run in *. cbn [fold_left]. rewrite step_exited by done. by apply IH.
Qed.

(** C9 (as amended). While the process lives, the stopped state is not
    terminal.
    - [stop()] and a failed startup check both leave the loop stopped, and
      a loop that wakes up stopped returns without calling another cycle.
    - But from a stopped state the restart timer calls [start()] again at
      its next tick, and once the startup checks of that invocation pass a
      trading cycle is executed.
    - Only after the SIGINT handler (stop, then exit of the process) is no
      trading cycle ever executed again. *)
Theorem stopped_until_next_tick s :
  exited s = false ->
  stopped (step s StopCalled)
  /\ (forall k, tasks s !! k = Some AwaitStartup ->
        stopped (step s (StartupDone k false))
        /\ cycles (step s (StartupDone k false)) = cycles s)
  /\ (forall k, tasks s !! k = Some AwaitSleep -> stopped s ->
        cycles (step s (SleepDone k)) = cycles s
        /\ tasks (step s (SleepDone k)) !! k = Some Returned)
  /\ (stopped s ->
        let ticked := step s TimerFired in
        isRunning ticked = true
        /\ tasks ticked = tasks s ++ [AwaitStartup]
        /\ cycles (step ticked (StartupDone (length (tasks s)) true))
           = S (cycles s))
  /\ (forall events,
        cycles (run (step s Sigint) events) = cycles s
        /\ stopped (run (step s Sigint) events)).
Proof.
  intros Halive. split_and!.
  - unfold step. by rewrite Halive.
  - intros k Hk. unfold step. by rewrite Halive, Hk.
  - intros k Hk Hstop. unfold step, stopped in *. rewrite Halive, Hk.
    unfold loop_head. rewrite Hstop. split; [done|].
    cbn [finally tasks]. apply list_lookup_insert_eq.
    by apply lookup_lt_Some in Hk.
  - intros Hstop ticked. unfold ticked, step, stopped in *.
    rewrite Halive, Hstop. cbn [negb]. unfold start. rewrite Hstop.
    cbn [isRunning tasks exited]. rewrite Halive.
    split; [done|]. split; [done|].
    rewrite lookup_app_r by done. rewrite Nat.sub_diag. by cbn.
  - intros events. rewrite run_exited; [|unfold step; by rewrite Halive].
    unfold step. by rewrite Halive.
Qed.

Lemma stopped_until_next_tick_witness :
  let failed := run initial [TimerFired; StartupDone 0 false] in
  let ticked := step failed TimerFired in
  isRunning ticked = true
  /\ tasks ticked = [Returned; AwaitStartup]
  /\ cycles (step ticked (StartupDone 1 true)) = 1%nat.
Proof.
  apply (stopped_until_next_tick (run initial [TimerFired; StartupDone 0 false])).
  - reflexivity.
  - reflexivity.
Defined.

(** The claim without the amendment. After a failed startup check the
    loop is stopped; the timer fires, the checks pass this time, and a
    trading cycle runs. After [stop()] during a wait, the timer starts a
    second loop, and the first one, waking up to a raised flag, goes on as
    well. *)
Lemma stopped_until_next_tick_counterexample :
  let failed := run initial [TimerFired; StartupDone 0 false] in
  let halted :=
    run initial [TimerFired; StartupDone 0 true; CycleDone 0; StopCalled] in
  stopped failed /\ cycles failed = 0%nat
  /\ cycles (run failed [TimerFired; StartupDone 1 true]) = 1%nat
  /\ stopped halted /\ cycles halted = 1%nat
  /\ cycles (run halted [TimerFired; StartupDone 1 true; SleepDone 0]) = 3%nat.
Proof. repeat split. Qed.

End orchestrator.

(* --------------------------------------------------------------------- *)
(** ** More on the settlement session                                     *)
(* --------------------------------------------------------------------- *)

Section settlement_properties.
Import Chain Contract Observe Trades.

Variable external_call : address -> address -> list byte -> state -> option state.
Variable cfg : config.

#[local] Ltac run :=
  repeat (progress (
    unfold mbind, M_bind, mret, M_ret, require, fail, emit, trace,
      call_balanceOf, token_call, abi_decode, checked_add;
    cbv beta iota)).

(** *** What a successful run went through *)

Lemma executeOperation_Ok_inv sender asset amount premium initiator params st
    b st' tr :
  executeOperation external_call cfg sender asset amount premium initiator
    params st [] = Ok b st' tr ->
  exists minProfit st2 tr2,
    reaches_settlement external_call cfg sender asset initiator params st
      minProfit st2 tr2
    /\ settle cfg asset amount premium minProfit st2 tr2 = Ok b st' tr.
Proof.
  unfold executeOperation. run.
  destruct (bool_decide (sender = pool cfg)) eqn:Hs; [|done].
  run. destruct (bool_decide (initiator = owner cfg)) eqn:Hi; [|done].
  run. destruct (ABI.decode params) as [[[m path] swapData]|] eqn:Hdec;
    [|done].
  run.
  destruct (execute_trades external_call cfg path swapData _ _)
    as [[] st2 tr2|f tr2] eqn:Htrades; [|done].
  intros Hsettle. exists m, st2, tr2. split; [|done].
  apply bool_decide_eq_true_1 in Hs. apply bool_decide_eq_true_1 in Hi.
  split; [done|]. split; [done|]. by exists path, swapData.
Qed.

Lemma settle_Ok_inv asset amount premium minProfit st2 tr2 b st' tr :
  settle cfg asset amount premium minProfit st2 tr2 = Ok b st' tr ->
  let B := balanceOf st2 asset (this cfg) in
  let debt := amount + premium in
  b = true /\ debt <= ABI.UINT256_MAX /\ debt <= B
  /\ ((debt < B /\ minProfit <= B - debt
       /\ st' = add_log (ArbitrageProfit asset (B - debt))
                  (move asset (this cfg) (owner cfg) (B - debt)
                     (set_allowance asset (this cfg) (pool cfg) debt
                        (add_log (DebugLog "Final balance" B) st2))))
      \/ ((B = debt \/ B - debt < minProfit)
          /\ st' = set_allowance asset (this cfg) (pool cfg) debt
                     (add_log (DebugLog "Final balance" B) st2))).
Proof.
  intros Hsettle B debt.
  destruct (decide (debt <= ABI.UINT256_MAX)) as [Hfit|Hover].
  2:{ rewrite settle_overflow in Hsettle by (fold debt; lia). done. }
  destruct (decide (debt <= B)) as [Hsolvent|Hlow].
  2:{ rewrite settle_insolvent in Hsettle by (try done; fold B debt; lia).
      done. }
  destruct (decide (debt < B /\ minProfit <= B - debt)) as [[Hlt Hmin]|Hno].
  - rewrite settle_distribute in Hsettle by done.
    injection Hsettle as <- <- <-. split_and!; try done. by left.
  - assert (B = debt \/ B - debt < minProfit) as Hkeep by lia.
    rewrite settle_retain in Hsettle by done.
    injection Hsettle as <- <- <-. split_and!; try done. by right.
Qed.

Lemma allowance_set_allowance token owner spender v st token' owner' spender' :
  allowance (set_allowance token owner spender v st) token' owner' spender'
  = if decide ((token, owner, spender) = (token', owner', spender')) then v
    else allowance st token' owner' spender'.
Proof.
  unfold allowance, set_allowance. simpl.
  rewrite lookup_insert. by case_decide.
Qed.

Lemma balanceOf_move_other token from to amount st token' account :
  (token', account) <> (token, from) -> (token', account) <> (token, to) ->
  balanceOf (move token from to amount st) token' account
  = balanceOf st token' account.
Proof.
  intros Hf Ht. unfold move. rewrite !balanceOf_set_balance.
  rewrite decide_False by congruence. by rewrite decide_False by congruence.
Qed.

(** *** The debt stays covered *)

(** X1. Whatever the blob and the trade targets do, a callback that
    returns does so with [true], with the contract still holding at least
    [amount + premium] of the borrowed asset and the pool allowed to pull
    exactly that much. *)
Theorem session_leaves_debt_covered sender asset amount premium initiator
    params st b st' tr :
  executeOperation external_call cfg sender asset amount premium initiator
    params st [] = Ok b st' tr ->
  owner cfg <> this cfg ->
  b = true
  /\ amount + premium <= balanceOf st' asset (this cfg)
  /\ allowance st' asset (this cfg) (pool cfg) = amount + premium.
Proof.
  intros Hrun Hne.
  apply executeOperation_Ok_inv in Hrun as (m & st2 & tr2 & _ & Hsettle).
  apply settle_Ok_inv in Hsettle
    as (-> & Hfit & Hsolvent & [(Hlt & Hmin & ->)|(Hkeep & ->)]).
  - split; [done|]. split.
    + rewrite balanceOf_add_log, balanceOf_move_from by done.
      rewrite balanceOf_set_allowance, balanceOf_add_log. lia.
    + unfold allowance, add_log, move, set_balance, set_allowance. simpl.
      by rewrite lookup_insert_eq.
  - split; [done|]. split.
    + by rewrite balanceOf_set_allowance, balanceOf_add_log.
    + rewrite allowance_set_allowance. by rewrite decide_True.
Qed.

(** *** What settlement leaves alone *)

(** X2. From the state the trades left, the settlement steps change no
    balance but those of the contract and of the operator in the borrowed
    asset, and no allowance but the one the contract grants the pool on
    that asset. *)
Theorem settlement_frame sender asset amount premium initiator params st
    minProfit st2 tr2 b st' tr :
  reaches_settlement external_call cfg sender asset initiator params st
    minProfit st2 tr2 ->
  executeOperation external_call cfg sender asset amount premium initiator
    params st [] = Ok b st' tr ->
  (forall token account,
     (token, account) <> (asset, this cfg) ->
     (token, account) <> (asset, owner cfg) ->
     balanceOf st' token account = balanceOf st2 token account)
  /\ (forall token holder spender,
        (token, holder, spender) <> (asset, this cfg, pool cfg) ->
        allowance st' token holder spender = allowance st2 token holder spender).
Proof.
  intros Hreach Hrun.
  rewrite (executeOperation_settle external_call cfg sender asset amount
             premium initiator params st minProfit st2 tr2 Hreach) in Hrun.
  apply settle_Ok_inv in Hrun
    as (-> & Hfit & Hsolvent & [(Hlt & Hmin & ->)|(Hkeep & ->)]).
  - split.
    + intros token account Hself Hop.
      rewrite balanceOf_add_log, balanceOf_move_other by done.
      by rewrite balanceOf_set_allowance, balanceOf_add_log.
    + intros token holder spender Hother.
      change (allowance (set_allowance asset (this cfg) (pool cfg)
                (amount + premium)
                (add_log (DebugLog "Final balance"
                   (balanceOf st2 asset (this cfg))) st2))
                token holder spender
              = allowance st2 token holder spender).
      rewrite allowance_set_allowance. by rewrite decide_False by congruence.
  - split; [done|]. intros token holder spender Hother.
    rewrite allowance_set_allowance. by rewrite decide_False by congruence.
Qed.

(** X3. Settlement moves the borrowed asset only between the contract and
    the operator: what the two hold together is what they held when the
    trades ended. *)
Theorem settlement_conserves_asset sender asset amount premium initiator
    params st minProfit st2 tr2 b st' tr :
  reaches_settlement external_call cfg sender asset initiator params st
    minProfit st2 tr2 ->
  executeOperation external_call cfg sender asset amount premium initiator
    params st [] = Ok b st' tr ->
  owner cfg <> this cfg ->
  balanceOf st' asset (this cfg) + balanceOf st' asset (owner cfg)
  = balanceOf st2 asset (this cfg) + balanceOf st2 asset (owner cfg).
Proof.
  intros Hreach Hrun Hne.
  rewrite (executeOperation_settle external_call cfg sender asset amount
             premium initiator params st minProfit st2 tr2 Hreach) in Hrun.
  apply settle_Ok_inv in Hrun
    as (-> & Hfit & Hsolvent & [(Hlt & Hmin & ->)|(Hkeep & ->)]).
  - rewrite !balanceOf_add_log.
    rewrite balanceOf_move_from, balanceOf_move_to by done.
    rewrite !balanceOf_set_allowance, !balanceOf_add_log. lia.
  - by rewrite !balanceOf_set_allowance, !balanceOf_add_log.
Qed.

(** *** A blob too short to decode *)

Lemma decode_short data :
  ABI.len data < 96 -> ABI.decode data = None.
Proof. intros H. unfold ABI.decode. by rewrite decide_False by lia. Qed.

(** X4. An authorized callback whose blob has fewer than 96 bytes (the
    three head words of the tuple) reverts without data in the decoder,
    after reading the balance and before any trade; nothing persists. *)
Theorem short_blob_rejected sender asset amount premium initiator params st :
  sender = pool cfg -> initiator = owner cfg ->
  (length params < 96)%nat ->
  let session :=
    executeOperation external_call cfg sender asset amount premium initiator
      params in
  session st [] = Fail RevertNoData [CallBalanceOf asset (this cfg)]
  /\ invocations (session st []) = []
  /\ transact session st = st.
Proof.
  intros Hs Hi Hlen session.
  assert (session st [] = Fail RevertNoData [CallBalanceOf asset (this cfg)])
    as Hrun.
  { unfold session, executeOperation. run.
    rewrite (bool_decide_eq_true_2 _ Hs), (bool_decide_eq_true_2 _ Hi).
    run. rewrite decode_short; [done|]. unfold ABI.len. lia. }
  split; [done|]. split.
  - by rewrite Hrun.
  - unfold transact. by rewrite Hrun.
Qed.

(** *** A trade that does not succeed *)

Lemma succeeded_not_failed a : succeeded a -> is_failed_invocation a = false.
Proof. destruct a as [| | | | |i t p []]; simpl; congruence. Qed.

Lemma not_invocation_not_failed a :
  is_invocation a = false -> is_failed_invocation a = false.
Proof. by destruct a as [| | | | |i t p []]. Qed.

Lemma trade_loop_outcome path swapData n : forall i st tr,
  match trade_loop external_call cfg path swapData i n st tr with
  | Ok _ _ tr' => exists ext, tr' = tr ++ ext /\ Forall succeeded ext
  | Fail f tr' =>
      (f = Panic 0x32 /\ exists ext, tr' = tr ++ ext /\ Forall succeeded ext)
      \/ (f = Revert "Swap failed"
          /\ exists ext j t p,
               tr' = tr ++ ext ++ [CallTarget j t p false]
               /\ Forall succeeded ext)
  end.
Proof.
  induction n as [|n IH]; intros i st tr.
  - exists []. by rewrite app_nil_r.
  - cbn [trade_loop]. unfold index, low_level_call. run.
    destruct (path !! i) as [target|];
      [|left; split; [done|]; exists []; by rewrite app_nil_r].
    destruct (swapData !! i) as [payload|];
      [|left; split; [done|]; exists []; by rewrite app_nil_r].
    run. destruct (external_call _ target payload st) as [st'|].
    + specialize (IH (S i) st' (tr ++ [CallTarget i target payload true])).
      destruct (trade_loop _ _ _ _ _ _ _ _) as [[] st2 tr2|f tr2].
      * destruct IH as (ext & -> & Hext).
        exists (CallTarget i target payload true :: ext).
        rewrite <- app_assoc. split; [done|]. by apply Forall_cons.
      * destruct IH as [(-> & ext & -> & Hext)
                       |(-> & ext & j & t & p & -> & Hext)].
        -- left. split; [done|].
           exists (CallTarget i target payload true :: ext).
           rewrite <- app_assoc. split; [done|]. by apply Forall_cons.
        -- right. split; [done|].
           exists (CallTarget i target payload true :: ext), j, t, p.
           rewrite <- !app_assoc. split; [done|]. by apply Forall_cons.
    + run. right. split; [done|].
      exists [], i, target, payload. split; [done|]. constructor.
Qed.

Lemma settle_not_swap_failed asset amount premium minProfit st tr f tr' :
  settle cfg asset amount premium minProfit st tr = Fail f tr' ->
  f <> Revert "Swap failed".
Proof.
  unfold settle. run.
  destruct (decide (amount + premium <= ABI.UINT256_MAX));
    [|by intros [= <- <-]].
  run. destruct (bool_decide _); [|by intros [= <- <-]].
  run. unfold erc20_approve. run.
  destruct (decide (amount + premium < balanceOf st asset (this cfg)));
    [|done].
  destruct (decide _); [|done].
  run. destruct (erc20_transfer _ _ _ _ _); [done|].
  by intros [= <- <-].
Qed.

(** X5. A session fails with the [SwapFailed] reason exactly when one of
    its trade invocations did not succeed. That invocation is then the last
    thing the session did, every invocation before it succeeded, and the
    transaction persists nothing. *)
Theorem swap_failure_iff sender asset amount premium initiator params st :
  let session :=
    executeOperation external_call cfg sender asset amount premium initiator
      params in
  ((exists tr, session st [] = Fail (Revert "Swap failed") tr)
     <-> Exists (fun a => is_failed_invocation a = true)
           (result_trace (session st [])))
  /\ (forall tr, session st [] = Fail (Revert "Swap failed") tr ->
        classify (Revert "Swap failed") = SwapFailed
        /\ transact session st = st
        /\ exists pre j t p,
             tr = pre ++ [CallTarget j t p false] /\ Forall succeeded pre).
Proof.
  intros session.
  assert ((exists pre j t p,
             session st [] = Fail (Revert "Swap failed")
                               (pre ++ [CallTarget j t p false])
             /\ Forall succeeded pre)
          \/ ((forall tr, session st [] <> Fail (Revert "Swap failed") tr)
              /\ Forall (fun a => is_failed_invocation a = false)
                   (result_trace (session st [])))) as Hcases.
  { unfold session, executeOperation. run.
    destruct (bool_decide (sender = pool cfg));
      [|right; split; [done|constructor]].
    run. destruct (bool_decide (initiator = owner cfg));
      [|right; split; [done|constructor]].
    run. destruct (ABI.decode params) as [[[m path] swapData]|];
      [|right; split; [done|by repeat constructor]].
    run. unfold execute_trades.
    pose proof (trade_loop_outcome path swapData (length swapData) 0
                  (add_log (DebugLog "Initial balance"
                     (balanceOf st asset (this cfg))) st)
                  (([] ++ [CallBalanceOf asset (this cfg)]) ++ [Decoded]))
      as Hloop.
    destruct (trade_loop _ _ _ _ _ _ _ _) as [[] st2 tr2|f tr2].
    - destruct Hloop as (ext & -> & Hext). right. split.
      + intros tr Hfail. by apply settle_not_swap_failed in Hfail.
      + destruct (settle_trace cfg asset amount premium m st2
                    ((([] ++ [CallBalanceOf asset (this cfg)]) ++ [Decoded])
                       ++ ext)) as (ext' & -> & Hext').
        rewrite !Forall_app. split_and!; [constructor|by repeat constructor
          |by repeat constructor| |].
        * eapply Forall_impl; [exact Hext|]. apply succeeded_not_failed.
        * eapply Forall_impl; [exact Hext'|].
          apply not_invocation_not_failed.
    - destruct Hloop as [(-> & ext & -> & Hext)
                        |(-> & ext & j & t & p & -> & Hext)].
      + right. split; [done|]. simpl.
        do 2 (constructor; [done|]).
        eapply Forall_impl; [exact Hext|]. apply succeeded_not_failed.
      + left. exists ([CallBalanceOf asset (this cfg); Decoded] ++ ext), j, t, p.
        split; [by rewrite <- !app_assoc|].
        apply Forall_app. split; [by repeat constructor|done]. }
  split.
  - split.
    + intros [tr Hfail].
      destruct Hcases as [(pre & j & t & p & Hrun & Hpre)|[Hnot _]];
        [|by apply Hnot in Hfail].
      rewrite Hrun. simpl. apply Exists_app. right. by constructor.
    + intros Hex.
      destruct Hcases as [(pre & j & t & p & Hrun & Hpre)|[_ Hall]];
        [by eexists|].
      apply Exists_exists in Hex as (a & Ha & Hfailed).
      rewrite Forall_forall in Hall. apply Hall in Ha. congruence.
  - intros tr Hfail. split; [done|]. split.
    + unfold transact. by rewrite Hfail.
    + destruct Hcases as [(pre & j & t & p & Hrun & Hpre)|[Hnot _]];
        [|by apply Hnot in Hfail].
      rewrite Hrun in Hfail. injection Hfail as <-. by exists pre, j, t, p.
Qed.

(** *** The trades, one after the other *)

Lemma trade_loop_fold path swapData n : forall i st tr,
  (i + n = length swapData)%nat -> (length swapData <= length path)%nat ->
  match fold_calls external_call (this cfg)
          (zip (drop i path) (drop i swapData)) st with
  | Some st' =>
      trade_loop external_call cfg path swapData i n st tr
      = Ok tt st'
          (tr ++ invocations_from i (zip (drop i path) (drop i swapData)))
  | None =>
      exists tr',
        trade_loop external_call cfg path swapData i n st tr
        = Fail (Revert "Swap failed") tr'
  end.
Proof.
  induction n as [|n IH]; intros i st tr Hi Hlen.
  - rewrite (drop_ge swapData) by lia. rewrite zip_with_nil_r.
    simpl. by rewrite app_nil_r.
  - destruct (lookup_lt_is_Some_2 path i) as [target Hp]; [lia|].
    destruct (lookup_lt_is_Some_2 swapData i) as [payload Hd]; [lia|].
    rewrite (drop_S _ _ _ Hp), (drop_S _ _ _ Hd).
    cbn [zip_with fold_calls invocations_from trade_loop].
    unfold index, low_level_call. run. rewrite Hp, Hd. run.
    destruct (external_call _ target payload st) as [st1|].
    + specialize (IH (S i) st1 (tr ++ [CallTarget i target payload true])).
      destruct (fold_calls _ _ _ st1) as [st'|].
      * rewrite IH by lia. by rewrite <- app_assoc.
      * destruct IH as [tr' ->]; [lia|lia|]. by eexists.
    + run. by eexists.
Qed.

(** X6. When there are at least as many targets as payloads, the loop
    is the fold of the calls over the (target, payload) pairs taken in
    order, each call made on the state the one before left: if they all
    succeed the session goes on from the last state, having invoked exactly
    these pairs; if one reverts the session fails with the [SwapFailed]
    reason. *)
Theorem trades_run_in_sequence path swapData st tr :
  (length swapData <= length path)%nat ->
  match fold_calls external_call (this cfg) (zip path swapData) st with
  | Some st' =>
      execute_trades external_call cfg path swapData st tr
      = Ok tt st' (tr ++ invocations_from 0 (zip path swapData))
  | None =>
      exists tr',
        execute_trades external_call cfg path swapData st tr
        = Fail (Revert "Swap failed") tr'
  end.
Proof.
  intros Hlen.
  apply (trade_loop_fold path swapData (length swapData) 0 st tr); [lia|done].
Qed.

(** *** The operator's actions *)

Lemma withdrawToken_owner token st :
  withdrawToken cfg (owner cfg) token st []
  = Ok tt
      (move token (this cfg) (owner cfg) (balanceOf st token (this cfg)) st)
      [CallBalanceOf token (this cfg);
       CallTransfer token (owner cfg) (balanceOf st token (this cfg))].
Proof.
  unfold withdrawToken, onlyOwner. run.
  rewrite bool_decide_eq_true_2 by done. run.
  unfold erc20_transfer. by rewrite decide_True by lia.
Qed.

Lemma fundContract_owner token amount st :
  fundContract cfg (owner cfg) token amount st []
  = if decide (amount <= allowance st token (owner cfg) (this cfg)
               /\ amount <= balanceOf st token (owner cfg))
    then Ok tt
           (move token (owner cfg) (this cfg) amount
              (set_allowance token (owner cfg) (this cfg)
                 (allowance st token (owner cfg) (this cfg) - amount) st))
           [CallTransferFrom token (owner cfg) (this cfg) amount]
    else Fail RevertNoData [CallTransferFrom token (owner cfg) (this cfg) amount].
Proof.
  unfold fundContract, onlyOwner. run.
  rewrite bool_decide_eq_true_2 by done. run.
  unfold erc20_transferFrom. by destruct (decide _).
Qed.

(** X7. Called by the operator, [withdrawToken] always succeeds and sends
    the contract's whole balance of the token to the operator: the contract
    is left with none, allowances and the log are not touched. *)
Theorem withdrawToken_drains sender token st :
  sender = owner cfg -> owner cfg <> this cfg ->
  exists st' tr,
    withdrawToken cfg sender token st [] = Ok tt st' tr
    /\ balanceOf st' token (this cfg) = 0
    /\ balanceOf st' token (owner cfg)
       = balanceOf st token (owner cfg) + balanceOf st token (this cfg)
    /\ allowances st' = allowances st
    /\ logs st' = logs st.
Proof.
  intros -> Hne. rewrite withdrawToken_owner.
  do 2 eexists. split; [done|]. split_and!; [| |done|done].
  - rewrite balanceOf_move_from by done. lia.
  - rewrite balanceOf_move_to by done. lia.
Qed.

(** X8. Called by the operator, [fundContract] pulls [amount] from the
    operator into the contract and uses up as much of the operator's
    allowance, when the allowance and the operator's balance both cover
    it; otherwise the token reverts and nothing changes. *)
Theorem fundContract_pulls sender token amount st :
  sender = owner cfg -> owner cfg <> this cfg ->
  let covered :=
    amount <= allowance st token (owner cfg) (this cfg)
    /\ amount <= balanceOf st token (owner cfg) in
  (covered ->
     exists st' tr,
       fundContract cfg sender token amount st [] = Ok tt st' tr
       /\ balanceOf st' token (this cfg) = balanceOf st token (this cfg) + amount
       /\ balanceOf st' token (owner cfg)
          = balanceOf st token (owner cfg) - amount
       /\ allowance st' token (owner cfg) (this cfg)
          = allowance st token (owner cfg) (this cfg) - amount)
  /\ (~ covered ->
        (exists tr, fundContract cfg sender token amount st [] = Fail RevertNoData tr)
        /\ transact (fundContract cfg sender token amount) st = st).
Proof.
  intros -> Hne covered. unfold transact. rewrite fundContract_owner. split.
  - intros Hcov. rewrite decide_True by done.
    do 2 eexists. split; [done|]. split_and!.
    + rewrite balanceOf_move_to by done. by rewrite balanceOf_set_allowance.
    + rewrite balanceOf_move_from by done. by rewrite balanceOf_set_allowance.
    + unfold allowance, move, set_balance, set_allowance. simpl.
      by rewrite lookup_insert_eq.
  - intros Hnot. rewrite decide_False by done. split; [by eexists|done].
Qed.

(** X9. Funding and then withdrawing gives the operator back what was
    put in, together with whatever the contract held before: after the two
    calls the operator has both balances and the contract has none. *)
Theorem fund_then_withdraw sender token amount st st1 tr1 :
  sender = owner cfg -> owner cfg <> this cfg ->
  fundContract cfg sender token amount st [] = Ok tt st1 tr1 ->
  exists st2 tr2,
    withdrawToken cfg sender token st1 [] = Ok tt st2 tr2
    /\ balanceOf st2 token (this cfg) = 0
    /\ balanceOf st2 token (owner cfg)
       = balanceOf st token (owner cfg) + balanceOf st token (this cfg).
Proof.
  intros -> Hne Hfund. rewrite fundContract_owner in Hfund.
  destruct (decide _) as [[Hallow Hbal]|]; [|done].
  injection Hfund as <- <-. rewrite withdrawToken_owner.
  do 2 eexists. split; [done|]. split.
  - rewrite balanceOf_move_from by done. lia.
  - rewrite balanceOf_move_to by done.
    rewrite balanceOf_move_to, balanceOf_move_from by done.
    rewrite !balanceOf_set_allowance. lia.
Qed.

End settlement_properties.

(* --------------------------------------------------------------------- *)
(** ** More runs of the settlement session on the concrete chain         *)
(* --------------------------------------------------------------------- *)

Section settlement_property_runs.
Import Chain Contract Observe Trades Fixture.

Lemma operator_is_not_settlement : owner cfg <> this cfg.
Proof. vm_compute. discriminate. Defined.

Lemma session_leaves_debt_covered_witness :
  match executeOperation venues cfg lending_pool token 100 1 operator
          (ABI.encode 10 [venue_a] [[]]) funded [] with
  | Ok b st' _ =>
      b = true
      /\ 100 + 1 <= balanceOf st' token settlement
      /\ allowance st' token settlement lending_pool = 100 + 1
  | Fail _ _ => False
  end.
Proof.
  destruct (executeOperation venues cfg lending_pool token 100 1 operator
              (ABI.encode 10 [venue_a] [[]]) funded []) as [b st' tr|f tr]
    eqn:Hrun.
  - exact (session_leaves_debt_covered venues cfg lending_pool token 100 1
             operator (ABI.encode 10 [venue_a] [[]]) funded b st' tr Hrun
             operator_is_not_settlement).
  - vm_compute in Hrun. discriminate.
Defined.

Lemma settlement_frame_witness :
  match executeOperation venues cfg lending_pool token 100 1 operator
          (ABI.encode 10 [venue_a] [[]]) funded [] with
  | Ok _ st' _ =>
      balanceOf st' token stranger = 0
      /\ allowance st' token settlement operator = 0
  | Fail _ _ => False
  end.
Proof.
  destruct (executeOperation venues cfg lending_pool token 100 1 operator
              (ABI.encode 10 [venue_a] [[]]) funded []) as [b st' tr|f tr]
    eqn:Hrun.
  - destruct (settlement_frame venues cfg lending_pool token 100 1 operator
                (ABI.encode 10 [venue_a] [[]]) funded 10 _ _ b st' tr
                reaches_settlement_one_trade Hrun) as [Hbal Hallow].
    split.
    + rewrite Hbal; [reflexivity | vm_compute; discriminate
                     | vm_compute; discriminate].
    + rewrite Hallow; [reflexivity | vm_compute; discriminate].
  - vm_compute in Hrun. discriminate.
Defined.

Lemma settlement_conserves_asset_witness :
  match executeOperation venues cfg lending_pool token 100 1 operator
          (ABI.encode 10 [venue_a] [[]]) funded [] with
  | Ok _ st' _ =>
      balanceOf st' token settlement + balanceOf st' token operator = 161
  | Fail _ _ => False
  end.
Proof.
  destruct (executeOperation venues cfg lending_pool token 100 1 operator
              (ABI.encode 10 [venue_a] [[]]) funded []) as [b st' tr|f tr]
    eqn:Hrun.
  - exact (settlement_conserves_asset venues cfg lending_pool token 100 1
             operator (ABI.encode 10 [venue_a] [[]]) funded 10 _ _ b st' tr
             reaches_settlement_one_trade Hrun operator_is_not_settlement).
  - vm_compute in Hrun. discriminate.
Defined.

Lemma short_blob_rejected_witness :
  let session :=
    executeOperation venues cfg lending_pool token 100 1 operator [] in
  session funded [] = Fail RevertNoData [CallBalanceOf token settlement]
  /\ invocations (session funded []) = []
  /\ transact session funded = funded.
Proof.
  apply (short_blob_rejected venues cfg lending_pool token 100 1 operator []
           funded).
  - reflexivity.
  - reflexivity.
  - simpl. lia.
Defined.

(** A blob whose second target is not a venue: the first trade is made,
    the second reverts, and the session fails with the swap reason. *)
Lemma swap_failure_iff_witness :
  exists tr,
    executeOperation venues cfg lending_pool token 100 1 operator
      (ABI.encode 10 [venue_a; stranger] [[]; []]) funded []
    = Fail (Revert "Swap failed") tr.
Proof.
  apply (swap_failure_iff venues cfg lending_pool token 100 1 operator
           (ABI.encode 10 [venue_a; stranger] [[]; []]) funded).
  vm_compute. apply Exists_cons_tl, Exists_cons_tl, Exists_cons_tl.
  apply Exists_cons_hd. reflexivity.
Defined.

Lemma trades_run_in_sequence_witness :
  execute_trades venues cfg [venue_a; venue_b] [[]; []] funded []
  = Ok tt
      (set_balance token settlement 162
         (set_balance token settlement 161 funded))
      [CallTarget 0 venue_a [] true; CallTarget 1 venue_b [] true].
Proof.
  pose proof (trades_run_in_sequence venues cfg [venue_a; venue_b] [[]; []]
                funded []) as Hseq.
  vm_compute in Hseq. vm_compute. apply Hseq. lia.
Defined.

Lemma withdrawToken_drains_witness :
  exists st' tr,
    withdrawToken cfg operator token funded [] = Ok tt st' tr
    /\ balanceOf st' token settlement = 0
    /\ balanceOf st' token operator = 0 + 101
    /\ allowances st' = allowances funded
    /\ logs st' = logs funded.
Proof.
  apply (withdrawToken_drains cfg operator token funded).
  - reflexivity.
  - exact operator_is_not_settlement.
Defined.

(** The operator holds 50 tokens and has approved the contract for 30. *)
Lemma fundContract_pulls_witness :
  let st :=
    set_allowance token operator settlement 30
      (set_balance token operator 50 funded) in
  (exists st' tr,
     fundContract cfg operator token 30 st [] = Ok tt st' tr
     /\ balanceOf st' token settlement = 101 + 30
     /\ balanceOf st' token operator = 50 - 30
     /\ allowance st' token operator settlement = 30 - 30)
  /\ transact (fundContract cfg operator token 31) st = st.
Proof.
  intros st. split.
  - apply (fundContract_pulls cfg operator token 30 st).
    + reflexivity.
    + exact operator_is_not_settlement.
    + split; vm_compute; discriminate.
  - apply (fundContract_pulls cfg operator token 31 st).
    + reflexivity.
    + exact operator_is_not_settlement.
    + intros [Hallow _]. vm_compute in Hallow. by apply Hallow.
Defined.

Lemma fund_then_withdraw_witness :
  let st :=
    set_allowance token operator settlement 30
      (set_balance token operator 50 funded) in
  match fundContract cfg operator token 30 st [] with
  | Ok _ st1 _ =>
      exists st2 tr2,
        withdrawToken cfg operator token st1 [] = Ok tt st2 tr2
        /\ balanceOf st2 token settlement = 0
        /\ balanceOf st2 token operator = 50 + 101
  | Fail _ _ => False
  end.
Proof.
  intros st.
  destruct (fundContract cfg operator token 30 st []) as [[] st1 tr1|f tr1]
    eqn:Hfund.
  - apply (fund_then_withdraw cfg operator token 30 st st1 tr1).
    + reflexivity.
    + exact operator_is_not_settlement.
    + exact Hfund.
  - vm_compute in Hfund. discriminate.
Defined.

End settlement_property_runs.

(* --------------------------------------------------------------------- *)
(** ** More on the evaluator and the blob it leads to                     *)
(* --------------------------------------------------------------------- *)

Section evaluator_properties.
Import Bot Documented.
Local Open Scope Z_scope.

Lemma diffBps_lower_bound qa qb :
  0 < qa -> 0 < qb -> 50 <= diffBps qa qb ->
  50 * Z.max qa qb <= Z.abs (qa - qb) * 10000.
Proof.
  intros Ha Hb Hd. unfold diffBps in Hd.
  pose proof (Z.mul_div_le (Z.abs (qa - qb) * 10000) (Z.max qa qb)) as Hle.
  assert (0 < Z.max qa qb) as Hmax by lia. specialize (Hle Hmax). nia.
Qed.

(** X10. An opportunity the evaluator returns for positive quotes buys on
    the venue with the lower quote and sells on the other; its prices are
    the two quotes, apart by at least 0.5% of the higher one, and its
    estimated profit is their difference less the loan fee, at least
    [MIN_PROFIT_WEI]. *)
Theorem opportunity_invariants qa qb n s1 s2 tA tB o :
  0 < qa -> 0 < qb -> 0 <= n ->
  analyzeOpportunity n (mkPrice qa s1) (mkPrice qb s2) tA tB = Normal (Some o) ->
  amount o = n
  /\ estimatedProfit o = sellPrice o - buyPrice o - n * 9 / 10000
  /\ MIN_PROFIT_WEI <= estimatedProfit o
  /\ buyPrice o < sellPrice o
  /\ 50 * sellPrice o <= (sellPrice o - buyPrice o) * 10000
  /\ (qa < qb ->
      buyFromDex o = s1 /\ sellToDex o = s2
      /\ buyPrice o = qa /\ sellPrice o = qb)
  /\ (qb < qa ->
      buyFromDex o = s2 /\ sellToDex o = s1
      /\ buyPrice o = qb /\ sellPrice o = qa).
Proof.
  intros Ha Hb Hn Hrun.
  rewrite (analyzeOpportunity_cases qa qb n s1 s2 tA tB Ha Hb Hn) in Hrun.
  destruct (decide (diffBps qa qb < 50)) as [|Hd]; [done|].
  destruct (decide (documented_profit qa qb n < MIN_PROFIT_WEI)) as [|Hp];
    [done|].
  injection Hrun as <-. cbn [amount estimatedProfit sellPrice buyPrice
                              buyFromDex sellToDex].
  unfold documented_profit in *.
  pose proof (diffBps_lower_bound qa qb Ha Hb) as Hdiv.
  assert (qa <> qb) as Hne.
  { intros ->. unfold diffBps in Hd. rewrite Z.sub_diag in Hd.
    simpl in Hd. rewrite Z.div_0_l in Hd by lia. lia. }
  split_and!; try lia.
  - intros Hlt. rewrite !decide_False by lia. split_and!; try done; lia.
  - intros Hlt. rewrite !decide_True by lia. split_and!; try done; lia.
Qed.

(** X11. The evaluation does not depend on the order in which the two
    quotes are passed: the result, trade direction included, is the
    same. *)
Theorem evaluator_symmetric qa qb n s1 s2 tA tB :
  0 < qa -> 0 < qb -> 0 <= n ->
  analyzeOpportunity n (mkPrice qa s1) (mkPrice qb s2) tA tB
  = analyzeOpportunity n (mkPrice qb s2) (mkPrice qa s1) tA tB.
Proof.
  intros Ha Hb Hn.
  rewrite (analyzeOpportunity_cases qa qb n s1 s2 tA tB Ha Hb Hn).
  rewrite (analyzeOpportunity_cases qb qa n s2 s1 tA tB Hb Ha Hn).
  assert (diffBps qb qa = diffBps qa qb) as ->.
  { unfold diffBps. rewrite (Z.max_comm qb qa). f_equal. lia. }
  assert (documented_profit qb qa n = documented_profit qa qb n) as ->.
  { unfold documented_profit. lia. }
  destruct (decide (diffBps qa qb < 50)) as [|Hd]; [done|].
  destruct (decide (documented_profit qa qb n < MIN_PROFIT_WEI)); [done|].
  assert (qa <> qb) as Hne.
  { intros ->. unfold diffBps in Hd. rewrite Z.sub_diag in Hd.
    simpl in Hd. rewrite Z.div_0_l in Hd by lia. lia. }
  rewrite (Z.max_comm qb qa), (Z.min_comm qb qa).
  destruct (decide (qa > qb)).
  - by rewrite !decide_False by lia.
  - by rewrite !decide_True by lia.
Qed.

(** X12. On quotes that are not negative the evaluator throws (a
    division by zero) exactly when both quotes are zero. *)
Theorem evaluator_throws_iff qa qb n s1 s2 tA tB :
  0 <= qa -> 0 <= qb ->
  (exists message,
     analyzeOpportunity n (mkPrice qa s1) (mkPrice qb s2) tA tB = Throw message)
  <-> qa = 0 /\ qb = 0.
Proof.
  intros Ha Hb. unfold analyzeOpportunity. cbn [quote_amount source].
  unfold bigint_div. split.
  - intros [message Hthrow].
    destruct (decide (qa > qb)).
    + destruct (decide (qa = 0)) as [->|]; [lia|].
      cbn [mbind completion_bind] in Hthrow.
      repeat destruct (decide _) in Hthrow; done.
    + destruct (decide (qb = 0)) as [->|]; [lia|].
      cbn [mbind completion_bind] in Hthrow.
      repeat destruct (decide _) in Hthrow; done.
  - intros [-> ->]. destruct (decide (0 > 0)); [lia|].
    destruct (decide (0 = 0)); [|done]. by eexists.
Qed.

(** X13. Evaluator, encoder and decoder in a row: for positive quotes
    within [uint256], whatever opportunity the evaluator returns is encoded
    without error, and the contract's decoder reads from the blob the
    estimated profit as minimum profit, the router of the buying venue
    followed by the router of the selling venue, and two empty payloads. *)
Theorem opportunity_blob_decodes qa qb n s1 s2 tA tB o :
  0 < qa <= Z.of_N ABI.UINT256_MAX -> 0 < qb <= Z.of_N ABI.UINT256_MAX ->
  0 <= n ->
  analyzeOpportunity n (mkPrice qa s1) (mkPrice qb s2) tA tB = Normal (Some o) ->
  exists blob,
    encodeArbitrageParams o = Normal blob
    /\ ABI.decode blob
       = Some (Z.to_N (estimatedProfit o),
               [ (if decide (buyFromDex o = "uniswap"%string)
                  then UNISWAP_V3_ROUTER else SUSHISWAP_ROUTER);
                 (if decide (sellToDex o = "uniswap"%string)
                  then UNISWAP_V3_ROUTER else SUSHISWAP_ROUTER) ],
               [ []; [] ]).
Proof.
  intros [Ha Ha'] [Hb Hb'] Hn Hrun.
  apply encodeArbitrageParams_decodes.
  rewrite (analyzeOpportunity_cases qa qb n s1 s2 tA tB Ha Hb Hn) in Hrun.
  destruct (decide (diffBps qa qb < 50)) as [|Hd]; [done|].
  destruct (decide (documented_profit qa qb n < MIN_PROFIT_WEI)) as [|Hp];
    [done|].
  injection Hrun as <-. cbn [estimatedProfit].
  assert (0 < MIN_PROFIT_WEI) by done.
  unfold documented_profit in *.
  pose proof (Z.div_pos (n * 9) 10000). lia.
Qed.

Lemma opportunity_invariants_witness :
  match analyzeOpportunity DEFAULT_AMOUNT
          (mkPrice (10 * 10 ^ 18) "uniswap")
          (mkPrice (1060 * 10 ^ 16) "sushiswap") DAI WETH with
  | Normal (Some o) =>
      buyFromDex o = "uniswap"%string /\ sellToDex o = "sushiswap"%string
  | _ => False
  end.
Proof.
  destruct (analyzeOpportunity DEFAULT_AMOUNT
              (mkPrice (10 * 10 ^ 18) "uniswap")
              (mkPrice (1060 * 10 ^ 16) "sushiswap") DAI WETH)
    as [[o|]|e] eqn:Hrun.
  - destruct (opportunity_invariants (10 * 10 ^ 18) (1060 * 10 ^ 16)
                DEFAULT_AMOUNT "uniswap" "sushiswap" DAI WETH o)
      as (_ & _ & _ & _ & _ & Hdir & _);
      [reflexivity | reflexivity | discriminate | exact Hrun |].
    destruct Hdir as (Hbuy & Hsell & _); [reflexivity|].
    split; [exact Hbuy | exact Hsell].
  - vm_compute in Hrun. discriminate.
  - vm_compute in Hrun. discriminate.
Defined.

Lemma evaluator_symmetric_witness :
  analyzeOpportunity DEFAULT_AMOUNT
    (mkPrice (10 * 10 ^ 18) "uniswap") (mkPrice (1060 * 10 ^ 16) "sushiswap")
    DAI WETH
  = analyzeOpportunity DEFAULT_AMOUNT
      (mkPrice (1060 * 10 ^ 16) "sushiswap") (mkPrice (10 * 10 ^ 18) "uniswap")
      DAI WETH.
Proof.
  apply evaluator_symmetric; done.
Defined.

Lemma evaluator_throws_iff_witness :
  exists message,
    analyzeOpportunity DEFAULT_AMOUNT (mkPrice 0 "uniswap")
      (mkPrice 0 "sushiswap") DAI WETH = Throw message.
Proof.
  apply evaluator_throws_iff; done.
Defined.

Lemma opportunity_blob_decodes_witness :
  match analyzeOpportunity DEFAULT_AMOUNT
          (mkPrice (10 * 10 ^ 18) "uniswap")
          (mkPrice (1060 * 10 ^ 16) "sushiswap") DAI WETH with
  | Normal (Some o) => exists blob, encodeArbitrageParams o = Normal blob
  | _ => False
  end.
Proof.
  destruct (analyzeOpportunity DEFAULT_AMOUNT
              (mkPrice (10 * 10 ^ 18) "uniswap")
              (mkPrice (1060 * 10 ^ 16) "sushiswap") DAI WETH)
    as [[o|]|e] eqn:Hrun.
  - destruct (opportunity_blob_decodes (10 * 10 ^ 18) (1060 * 10 ^ 16)
                DEFAULT_AMOUNT "uniswap" "sushiswap" DAI WETH o)
      as (blob & Henc & _);
      [vm_compute; split; [reflexivity|discriminate]
      |vm_compute; split; [reflexivity|discriminate]
      |discriminate | exact Hrun |].
    exists blob. exact Henc.
  - vm_compute in Hrun. discriminate.
  - vm_compute in Hrun. discriminate.
Defined.

End evaluator_properties.

(* --------------------------------------------------------------------- *)
(** ** More on the trading cycle and the funding guard                    *)
(* --------------------------------------------------------------------- *)

Section bot_properties.
Import Chain Bot.
Local Open Scope Z_scope.

Variable d : deployment.
Variable net : network.

#[local] Ltac js :=
  repeat (progress (
    unfold mbind, JS_bind, mret, JS_ret, throw, try_catch, request, get_bot,
      set_bot, get_chain, read_balanceOf, send, await, lift;
    cbv beta iota)).

(** *** Each method, run *)

Lemma getCurrentGasPrice_run s :
  getCurrentGasPrice net s
  = match fee_data net with
    | Some (Some wei) =>
        (Normal (gwei wei),
         mkSystem
           (mkBot (isRunning (self s))
              (let history := gasHistory (self s) ++ [(now net, gwei wei)] in
               if decide (20 < length history)%nat then last20 history
               else history)
              (profitHistory (self s)))
           (chain s) (requests s ++ [GetFeeData]))
    | _ =>
        (Normal (inject_Z 50),
         mkSystem (self s) (chain s) (requests s ++ [GetFeeData]))
    end.
Proof.
  unfold getCurrentGasPrice. js. by destruct (fee_data net) as [[wei|]|].
Qed.

Lemma scanForArbitrageOpportunities_run s :
  scanForArbitrageOpportunities net s
  = (Normal
       match uniswap_quote net, sushi_quote net with
       | Some qa, Some qb =>
           match analyzeOpportunity DEFAULT_AMOUNT (mkPrice qa "uniswap")
                   (mkPrice qb "sushiswap") DAI WETH with
           | Normal (Some o) => [o]
           | _ => []
           end
       | _, _ => []
       end,
     mkSystem (self s) (chain s)
       ((requests s ++ [QuoteExactInputSingle DAI WETH 3000 DEFAULT_AMOUNT])
          ++ [GetAmountsOut DEFAULT_AMOUNT [DAI; WETH]])).
Proof.
  unfold scanForArbitrageOpportunities, getUniswapPrice, getSushiPrice. js.
  destruct (uniswap_quote net) as [qa|]; js;
    destruct (sushi_quote net) as [qb|]; js; try done.
  by destruct (analyzeOpportunity _ _ _ _ _) as [[o|]|].
Qed.

Lemma parseTransactionResult_run logs s :
  parseTransactionResult net logs s
  = (Normal tt,
     match last_profit logs with
     | Some p =>
         if decide (p = 0%N) then s
         else mkSystem
                (mkBot (isRunning (self s)) (gasHistory (self s))
                   (profitHistory (self s) ++ [(now net, Z.of_N p)]))
                (chain s) (requests s)
     | None => s
     end).
Proof.
  unfold parseTransactionResult. destruct (last_profit logs) as [p|]; [|done].
  by destruct (decide (p = 0%N)).
Qed.

Lemma executeArbitrage_run o s :
  executeArbitrage d net o s
  = match encodeArbitrageParams o with
    | Throw _ => (Normal tt, s)
    | Normal params =>
        let sent :=
          mkSystem (self s) (chain s)
            (requests s
               ++ [Tx_flashLoanSimple (FLASH_ARBITRAGE d) (tokenA o) (amount o)
                     params 0]) in
        match flash_loan net with
        | Some logs => parseTransactionResult net logs sent
        | None => (Normal tt, sent)
        end
    end.
Proof.
  unfold executeArbitrage. js.
  destruct (encodeArbitrageParams o) as [params|e]; [|done].
  js. destruct (flash_loan net) as [logs|]; [|done].
  js. by rewrite parseTransactionResult_run.
Qed.

Lemma analyzeOpportunity_Some n p1 p2 tA tB o :
  analyzeOpportunity n p1 p2 tA tB = Normal (Some o) ->
  tokenA o = tA /\ amount o = n /\ MIN_PROFIT_WEI <= estimatedProfit o.
Proof.
  unfold analyzeOpportunity.
  destruct (if decide (quote_amount p1 > quote_amount p2)
            then bigint_div _ _ else bigint_div _ _) as [priceDiff|e]; [|done].
  cbn [mbind completion_bind].
  destruct (decide (priceDiff < MIN_PRICE_DIFFERENCE)); [done|].
  destruct (decide (_ < MIN_PROFIT_WEI)) as [|Hp]; [done|].
  intros [= <-]. cbn [tokenA amount estimatedProfit]. split_and!; [done..|lia].
Qed.

(** *** The cycle as a whole *)

(** X14. A trading cycle never throws: a failed fee-data request, a
    failed quote, a division by zero in the evaluator, an encoding error
    and a failed loan transaction are all caught inside it. *)
Theorem cycle_never_throws s :
  fst (executeTradingCycle d net s) = Normal tt.
Proof.
  unfold executeTradingCycle. unfold mbind at 1. unfold JS_bind.
  rewrite getCurrentGasPrice_run.
  destruct (fee_data net) as [[wei|]|]; [|done|done].
  destruct (gas_too_high (gwei wei)); [done|].
  unfold mbind, JS_bind. rewrite scanForArbitrageOpportunities_run.
  destruct (match uniswap_quote net with Some _ => _ | None => _ end)
    as [|o rest]; [done|].
  rewrite executeArbitrage_run.
  destruct (encodeArbitrageParams o) as [params|e]; [|done].
  cbv zeta. destruct (flash_loan net) as [logs|]; [|done].
  by rewrite parseTransactionResult_run.
Qed.

(** X15. A trading cycle submits at most one transaction, and never
    touches the ledger itself: the transaction, if any, is a
    [flashLoanSimple] for the settlement contract, of [DEFAULT_AMOUNT] DAI,
    with referral code 0 and the encoded blob of an opportunity whose
    estimated profit is at least [MIN_PROFIT_WEI]. *)
Theorem cycle_at_most_one_loan s :
  let after := snd (executeTradingCycle d net s) in
  chain after = chain s
  /\ (transactions after = transactions s
      \/ exists o params,
           transactions after
           = transactions s
               ++ [Tx_flashLoanSimple (FLASH_ARBITRAGE d) DAI DEFAULT_AMOUNT
                     params 0]
           /\ encodeArbitrageParams o = Normal params
           /\ MIN_PROFIT_WEI <= estimatedProfit o).
Proof.
  intros after. unfold after. clear after.
  destruct (executeTradingCycle d net s) as [c after] eqn:Hrun. cbn [snd].
  unfold executeTradingCycle in Hrun. unfold mbind at 1 in Hrun.
  unfold JS_bind in Hrun. rewrite getCurrentGasPrice_run in Hrun.
  assert (forall b,
            transactions (mkSystem b (chain s) (requests s ++ [GetFeeData]))
            = transactions s) as Hfee.
  { intros b. unfold transactions. cbn [requests].
    rewrite filter_app. cbn. by rewrite app_nil_r. }
  destruct (fee_data net) as [[wei|]|];
    [|injection Hrun as <- <-; split; [done|left; apply Hfee]..].
  destruct (gas_too_high (gwei wei));
    [injection Hrun as <- <-; split; [done|left; apply Hfee]|].
  unfold mbind, JS_bind in Hrun.
  rewrite scanForArbitrageOpportunities_run in Hrun.
  cbn [self chain requests] in Hrun.
  set (s1 := mkSystem _ (chain s)
               ((_ ++ [QuoteExactInputSingle _ _ _ _]) ++ _)) in Hrun.
  assert (transactions s1 = transactions s) as Hs1.
  { unfold s1, transactions. cbn [requests].
    rewrite !filter_app. cbn. by rewrite !app_nil_r. }
  destruct (uniswap_quote net) as [qa|];
    [|injection Hrun as <- <-; split; [done|by left]].
  destruct (sushi_quote net) as [qb|];
    [|injection Hrun as <- <-; split; [done|by left]].
  destruct (analyzeOpportunity _ _ _ _ _) as [[o|]|] eqn:Hopp;
    [|injection Hrun as <- <-; split; [done|by left]..].
  apply analyzeOpportunity_Some in Hopp as (HtA & Hamt & Hmin).
  rewrite executeArbitrage_run in Hrun.
  destruct (encodeArbitrageParams o) as [params|e] eqn:Henc;
    [|injection Hrun as <- <-; split; [done|by left]].
  cbv zeta in Hrun. rewrite HtA, Hamt in Hrun.
  assert (forall b,
            transactions
              (mkSystem b (chain s1)
                 (requests s1
                    ++ [Tx_flashLoanSimple (FLASH_ARBITRAGE d) DAI
                          DEFAULT_AMOUNT params 0]))
            = transactions s
                ++ [Tx_flashLoanSimple (FLASH_ARBITRAGE d) DAI DEFAULT_AMOUNT
                      params 0]) as Hloan.
  { intros b. rewrite <- Hs1. unfold transactions. cbn [requests].
    by rewrite filter_app. }
  destruct (flash_loan net) as [logs|].
  - rewrite parseTransactionResult_run in Hrun.
    destruct (last_profit logs) as [p|];
      [destruct (decide (p = 0%N))|];
      injection Hrun as <- <-;
      (split; [done|right; exists o, params; split; [apply Hloan|done]]).
  - injection Hrun as <- <-. split; [done|]. right. exists o, params.
    split; [apply Hloan|done].
Qed.

(** *** The gas readings *)

Lemma last20_length {A : Type} (l : list A) :
  (20 < length l)%nat -> length (last20 l) = 20%nat.
Proof. intros H. unfold last20. rewrite length_drop. lia. Qed.

Lemma last20_last {A : Type} (l : list A) x :
  last20 (l ++ [x]) !! pred (length (last20 (l ++ [x]))) = Some x.
Proof.
  unfold last20. rewrite lookup_drop, length_drop, length_app. simpl.
  rewrite lookup_app_r by lia.
  replace (_ - length l)%nat with 0%nat by lia. done.
Qed.

(** X16. After a cycle that obtained the gas price, the history of gas
    readings has at most 20 entries, whatever it had before, and the new
    reading is its last entry; a cycle that could not obtain it leaves the
    history as it was. *)
Theorem gas_history_bounded s :
  let after := self (snd (executeTradingCycle d net s)) in
  (forall wei, fee_data net = Some (Some wei) ->
     (length (gasHistory after) <= 20)%nat
     /\ last (gasHistory after) = Some (now net, gwei wei))
  /\ ((forall wei, fee_data net <> Some (Some wei)) ->
        gasHistory after = gasHistory (self s)).
Proof.
  assert (forall b,
            gasHistory (self (snd (executeTradingCycle d net
                                     (mkSystem b (chain s) (requests s)))))
            = match fee_data net with
              | Some (Some wei) =>
                  let history := gasHistory b ++ [(now net, gwei wei)] in
                  if decide (20 < length history)%nat then last20 history
                  else history
              | _ => gasHistory b
              end) as Hhist.
  { intros b. unfold executeTradingCycle. unfold mbind at 1. unfold JS_bind.
    rewrite getCurrentGasPrice_run. cbn [self chain requests].
    destruct (fee_data net) as [[wei|]|]; [|done|done].
    destruct (gas_too_high (gwei wei)); [done|].
    unfold mbind, JS_bind. rewrite scanForArbitrageOpportunities_run.
    destruct (match uniswap_quote net with Some _ => _ | None => _ end)
      as [|o rest]; [done|].
    rewrite executeArbitrage_run.
    destruct (encodeArbitrageParams o) as [params|e]; [|done].
    cbv zeta. destruct (flash_loan net) as [logs|]; [|done].
    rewrite parseTransactionResult_run. cbn [snd].
    destruct (last_profit logs) as [p|]; [|done].
    by destruct (decide (p = 0%N)). }
  intros after. unfold after.
  destruct s as [b st reqs]. specialize (Hhist b). cbn [chain requests] in Hhist.
  rewrite Hhist. cbn [self]. split.
  - intros wei ->. cbv zeta.
    destruct (decide (20 < length (gasHistory b ++ [(now net, gwei wei)]))%nat)
      as [Hlong|Hshort].
    + split; [by rewrite last20_length|].
      rewrite last_lookup. apply last20_last.
    + split; [lia|]. by rewrite last_snoc.
  - intros Hnone. destruct (fee_data net) as [[wei|]|]; [|done|done].
    by destruct (Hnone wei).
Qed.

Lemma gas_too_high_iff wei :
  gas_too_high (gwei wei) = true <-> MAX_GAS_PRICE < wei.
Proof.
  unfold gas_too_high, gwei, Qle_bool. cbn [Qnum Qden].
  rewrite negb_true_iff, Z.leb_gt.
  change (MAX_GAS_PRICE) with 25000000000. lia.
Qed.

(** X17. With the gas price known, the cycle stops at the gas check
    exactly when the price is above 25 gwei: above, it asks the network for
    nothing more; at 25 gwei or below, it asks both venues for a quote of
    the default amount. *)
Theorem gas_ceiling wei s :
  fee_data net = Some (Some wei) ->
  let after := snd (executeTradingCycle d net s) in
  (MAX_GAS_PRICE < wei -> requests after = requests s ++ [GetFeeData])
  /\ (wei <= MAX_GAS_PRICE ->
        price_queries after
        = price_queries s
            ++ [QuoteExactInputSingle DAI WETH 3000 DEFAULT_AMOUNT;
                GetAmountsOut DEFAULT_AMOUNT [DAI; WETH]]).
Proof.
  intros Hfee after. unfold after. clear after.
  destruct (executeTradingCycle d net s) as [c after] eqn:Hrun. cbn [snd].
  unfold executeTradingCycle in Hrun. unfold mbind at 1 in Hrun.
  unfold JS_bind in Hrun. rewrite getCurrentGasPrice_run, Hfee in Hrun.
  pose proof (gas_too_high_iff wei) as Hhigh.
  destruct (gas_too_high (gwei wei)).
  - injection Hrun as <- <-. split; [done|]. intros Hle. apply proj1 in Hhigh.
    specialize (Hhigh eq_refl). lia.
  - split; [intros Hlt; apply Hhigh in Hlt; done|]. intros _.
    unfold mbind, JS_bind in Hrun.
    rewrite scanForArbitrageOpportunities_run in Hrun.
    cbn [self chain requests] in Hrun.
    set (found := match uniswap_quote net with Some _ => _ | None => _ end)
      in Hrun.
    assert (forall b st,
              price_queries
                (mkSystem b st
                   (((requests s ++ [GetFeeData])
                       ++ [QuoteExactInputSingle DAI WETH 3000 DEFAULT_AMOUNT])
                      ++ [GetAmountsOut DEFAULT_AMOUNT [DAI; WETH]]))
              = price_queries s
                  ++ [QuoteExactInputSingle DAI WETH 3000 DEFAULT_AMOUNT;
                      GetAmountsOut DEFAULT_AMOUNT [DAI; WETH]]) as Hq.
    { intros b st. unfold price_queries. cbn [requests].
      rewrite !filter_app. cbn. by rewrite app_nil_r, <- app_assoc. }
    destruct found as [|o rest]; [injection Hrun as <- <-; apply Hq|].
    rewrite executeArbitrage_run in Hrun.
    destruct (encodeArbitrageParams o) as [params|e];
      [|injection Hrun as <- <-; apply Hq].
    cbv zeta in Hrun. cbn [self chain requests] in Hrun.
    assert (forall b st r,
              is_price_query r = false ->
              price_queries
                (mkSystem b st
                   ((((requests s ++ [GetFeeData])
                        ++ [QuoteExactInputSingle DAI WETH 3000 DEFAULT_AMOUNT])
                       ++ [GetAmountsOut DEFAULT_AMOUNT [DAI; WETH]]) ++ [r]))
              = price_queries s
                  ++ [QuoteExactInputSingle DAI WETH 3000 DEFAULT_AMOUNT;
                      GetAmountsOut DEFAULT_AMOUNT [DAI; WETH]]) as Hq'.
    { intros b st r Hr. unfold price_queries. cbn [requests].
      rewrite !filter_app. cbn. rewrite Hr. cbn.
      by rewrite !app_nil_r, <- app_assoc. }
    destruct (flash_loan net) as [logs|];
      [|injection Hrun as <- <-; by apply Hq'].
    rewrite parseTransactionResult_run in Hrun.
    destruct (last_profit logs) as [p|];
      [destruct (decide (p = 0%N))|];
      injection Hrun as <- <-; by apply Hq'.
Qed.

(** *** Reading the receipt *)

Lemma fold_profit_none logs acc :
  Forall (fun e => Observe.is_profit e = false) logs ->
  fold_left (fun acc e =>
               match e with ArbitrageProfit _ p => Some p | _ => acc end)
    logs acc = acc.
Proof.
  revert acc. induction logs as [|e logs IH]; intros acc Hall; [done|].
  apply Forall_cons in Hall as [He Hall]. cbn [fold_left].
  rewrite IH by done. by destruct e.
Qed.

(** X18. From a receipt the bot records the profit of the last
    [ArbitrageProfit] event, with the time, unless that profit is zero; a
    receipt without such an event records nothing. It never throws, and
    touches nothing but the profit history. *)
Theorem receipt_records_last_profit logs s :
  let after := snd (parseTransactionResult net logs s) in
  fst (parseTransactionResult net logs s) = Normal tt
  /\ (forall pre token p post,
        logs = pre ++ ArbitrageProfit token p :: post ->
        Forall (fun e => Observe.is_profit e = false) post ->
        profitHistory (self after)
        = if decide (p = 0%N) then profitHistory (self s)
          else profitHistory (self s) ++ [(now net, Z.of_N p)])
  /\ (Forall (fun e => Observe.is_profit e = false) logs -> after = s)
  /\ gasHistory (self after) = gasHistory (self s)
  /\ chain after = chain s
  /\ requests after = requests s.
Proof.
  intros after. unfold after. rewrite parseTransactionResult_run. cbn [fst snd].
  split; [done|]. split; [|split].
  - intros pre token p post -> Hpost. unfold last_profit.
    rewrite fold_left_app. cbn [fold_left]. rewrite fold_profit_none by done.
    by destruct (decide (p = 0%N)).
  - intros Hnone. unfold last_profit. by rewrite fold_profit_none.
  - destruct (last_profit logs) as [p|]; [|done].
    by destruct (decide (p = 0%N)).
Qed.

(** *** Startup and funding *)


(** X20. When the contract holds less than 5 DAI and the wallet less than
    10, the guard throws for want of capital after its two balance reads:
    no transaction is submitted and the ledger is not touched. *)
Theorem funding_insufficient_capital s :
  Z.of_N (balanceOf (chain s) DAI (FLASH_ARBITRAGE d)) < parseUnits 5 18 ->
  Z.of_N (balanceOf (chain s) DAI (wallet d)) < parseUnits 10 18 ->
  let after := snd (ensureContractFunding d s) in
  fst (ensureContractFunding d s)
  = Throw "Insufficient DAI in wallet for contract funding"
  /\ requests after
     = requests s ++ [Call_balanceOf DAI (FLASH_ARBITRAGE d);
                      Call_balanceOf DAI (wallet d)]
  /\ transactions after = transactions s
  /\ chain after = chain s.
Proof.
  intros Hheld Hpoor after. unfold after. clear after.
  assert (ensureContractFunding d s
          = (Throw "Insufficient DAI in wallet for contract funding",
             mkSystem (self s) (chain s)
               ((requests s ++ [Call_balanceOf DAI (FLASH_ARBITRAGE d)])
                  ++ [Call_balanceOf DAI (wallet d)]))) as ->.
  { unfold ensureContractFunding. js. cbn [chain requests].
    rewrite decide_True by done. js. cbn [chain requests self].
    by rewrite decide_True by done. }
  cbn [fst snd requests chain].
  split; [done|]. split; [by rewrite <- app_assoc|]. split; [|done].
  unfold transactions. cbn [requests]. rewrite !filter_app. cbn.
  by rewrite !app_nil_r.
Qed.

Lemma ten_DAI : Z.of_N (Z.to_N (parseUnits 10 18)) = parseUnits 10 18.
Proof. done. Qed.

Lemma ensureContractFunding_low s :
  Z.of_N (balanceOf (chain s) DAI (FLASH_ARBITRAGE d)) < parseUnits 5 18 ->
  parseUnits 10 18 <= Z.of_N (balanceOf (chain s) DAI (wallet d)) ->
  ensureContractFunding d s
  = let ten := Z.to_N (parseUnits 10 18) in
    let approved :=
      set_allowance DAI (wallet d) (FLASH_ARBITRAGE d) ten (chain s) in
    let sent :=
      requests s
        ++ [Call_balanceOf DAI (FLASH_ARBITRAGE d);
            Call_balanceOf DAI (wallet d);
            Tx_approve DAI (FLASH_ARBITRAGE d) (parseUnits 10 18)] in
    match fundContract_effect d DAI ten approved with
    | Some st' =>
        (Normal tt,
         mkSystem (self s) st' (sent ++ [Tx_fundContract DAI (parseUnits 10 18)]))
    | None => (Throw "execution reverted", mkSystem (self s) approved sent)
    end.
Proof.
  intros Hheld Hrich. unfold ensureContractFunding. js. cbn [chain requests].
  rewrite decide_True by done. js. cbn [chain requests self].
  rewrite decide_False by lia. js. unfold erc20_approve.
  cbn [chain requests self]. cbv zeta.
  rewrite <- !app_assoc. cbn [app].
  by destruct (fundContract_effect _ _ _ _).
Qed.

(** X21. When the contract holds less than 5 DAI, the wallet at least 10,
    and the wallet is the contract's operator, the guard succeeds: 10 DAI
    move from the wallet to the contract, the approval is used up, and a
    second run of the guard submits nothing. *)
Theorem funding_tops_up s :
  Z.of_N (balanceOf (chain s) DAI (FLASH_ARBITRAGE d)) < parseUnits 5 18 ->
  parseUnits 10 18 <= Z.of_N (balanceOf (chain s) DAI (wallet d)) ->
  wallet d = Contract.owner (flash d) -> wallet d <> FLASH_ARBITRAGE d ->
  let after := snd (ensureContractFunding d s) in
  fst (ensureContractFunding d s) = Normal tt
  /\ Z.of_N (balanceOf (chain after) DAI (FLASH_ARBITRAGE d))
     = Z.of_N (balanceOf (chain s) DAI (FLASH_ARBITRAGE d)) + parseUnits 10 18
  /\ Z.of_N (balanceOf (chain after) DAI (wallet d))
     = Z.of_N (balanceOf (chain s) DAI (wallet d)) - parseUnits 10 18
  /\ allowance (chain after) DAI (wallet d) (FLASH_ARBITRAGE d) = 0%N
  /\ transactions (snd (ensureContractFunding d after)) = transactions after.
Proof.
  intros Hheld Hrich Howner Hne after. unfold after. clear after.
  rewrite ensureContractFunding_low by assumption. cbv zeta.
  unfold fundContract_effect. rewrite Howner.
  rewrite fundContract_owner. fold (FLASH_ARBITRAGE d). rewrite <- Howner.
  rewrite allowance_set_allowance.
  rewrite (decide_True (P := (DAI, wallet d, FLASH_ARBITRAGE d)
                             = (DAI, wallet d, FLASH_ARBITRAGE d)))
    by reflexivity.
  rewrite balanceOf_set_allowance.
  pose proof ten_DAI as Hten.
  assert (0 < parseUnits 10 18) as Hpos by (vm_compute; reflexivity).
  assert (parseUnits 5 18 <= parseUnits 10 18) as Hmin
    by (vm_compute; discriminate).
  set (ten := Z.to_N (parseUnits 10 18)) in *.
  destruct (decide _) as [_|Hno]; [|exfalso; apply Hno; split; lia].
  cbn [fst snd chain]. rewrite N.sub_diag.
  assert (balanceOf
            (move DAI (wallet d) (FLASH_ARBITRAGE d) ten
               (set_allowance DAI (wallet d) (FLASH_ARBITRAGE d) 0
                  (set_allowance DAI (wallet d) (FLASH_ARBITRAGE d) ten
                     (chain s)))) DAI (FLASH_ARBITRAGE d)
          = (balanceOf (chain s) DAI (FLASH_ARBITRAGE d) + ten)%N) as Hnew.
  { rewrite balanceOf_move_to by assumption.
    rewrite !balanceOf_set_allowance. reflexivity. }
  split; [reflexivity|]. split; [|split; [|split]].
  - rewrite Hnew. lia.
  - rewrite balanceOf_move_from by assumption.
    rewrite !balanceOf_set_allowance. lia.
  - unfold allowance, move, set_balance, set_allowance. cbn [allowances].
    rewrite lookup_insert_eq. reflexivity.
  - rewrite ensureContractFunding_funded.
    + unfold transactions. cbn [snd requests]. rewrite filter_app.
      cbn [filter list_filter]. apply app_nil_r.
    + cbn [chain]. rewrite Hnew. lia.
Qed.

(** X22. With the same balances but a wallet that is not the contract's
    operator, the approval is submitted and mined, and the funding call is
    refused on the owner check when its gas is estimated, so it is never
    submitted: the guard throws with the approval as its only transaction,
    no balance moved, and the 10 DAI allowance to the contract left in
    place. *)
Theorem funding_by_stranger s :
  Z.of_N (balanceOf (chain s) DAI (FLASH_ARBITRAGE d)) < parseUnits 5 18 ->
  parseUnits 10 18 <= Z.of_N (balanceOf (chain s) DAI (wallet d)) ->
  wallet d <> Contract.owner (flash d) ->
  let after := snd (ensureContractFunding d s) in
  (exists message, fst (ensureContractFunding d s) = Throw message)
  /\ Contract.fundContract (flash d) (wallet d) DAI
       (Z.to_N (parseUnits 10 18)) (chain after) []
     = Contract.Fail (Contract.Revert "Only owner") []
  /\ transactions after
     = transactions s
         ++ [Tx_approve DAI (FLASH_ARBITRAGE d) (parseUnits 10 18)]
  /\ balances (chain after) = balances (chain s)
  /\ allowance (chain after) DAI (wallet d) (FLASH_ARBITRAGE d)
     = Z.to_N (parseUnits 10 18).
Proof.
  intros Hheld Hrich Hstranger after. unfold after. clear after.
  rewrite ensureContractFunding_low by assumption. cbv zeta.
  unfold fundContract_effect.
  rewrite fundContract_onlyOwner by assumption. cbn [fst snd chain].
  split; [by eexists|]. split; [by apply fundContract_onlyOwner|].
  split; [|split].
  - unfold transactions. cbn [requests]. rewrite filter_app. reflexivity.
  - reflexivity.
  - rewrite allowance_set_allowance.
    rewrite (decide_True (P := (DAI, wallet d, FLASH_ARBITRAGE d)
                               = (DAI, wallet d, FLASH_ARBITRAGE d)))
      by reflexivity.
    reflexivity.
Qed.

End bot_properties.

(* --------------------------------------------------------------------- *)
(** ** More runs of the bot on the concrete deployment                    *)
(* --------------------------------------------------------------------- *)

Section bot_property_runs.
Import Chain Bot BotFixture.
Local Open Scope Z_scope.

(** At exactly 25 gwei the cycle goes on to the venues. *)
Lemma gas_ceiling_witness :
  price_queries
    (snd (executeTradingCycle deployed (quotes (Some (Some MAX_GAS_PRICE)))
            capitalised))
  = [QuoteExactInputSingle DAI WETH 3000 DEFAULT_AMOUNT;
     GetAmountsOut DEFAULT_AMOUNT [DAI; WETH]].
Proof.
  apply (gas_ceiling deployed (quotes (Some (Some MAX_GAS_PRICE)))
           MAX_GAS_PRICE capitalised).
  - reflexivity.
  - lia.
Defined.

(** Nobody holds any DAI. *)
Lemma funding_insufficient_capital_witness :
  let s := mkSystem idle (mkState ∅ ∅ []) [] in
  fst (ensureContractFunding deployed s)
  = Throw "Insufficient DAI in wallet for contract funding"
  /\ requests (snd (ensureContractFunding deployed s))
     = [Call_balanceOf DAI Fixture.settlement;
        Call_balanceOf DAI Fixture.operator]
  /\ transactions (snd (ensureContractFunding deployed s)) = []
  /\ chain (snd (ensureContractFunding deployed s)) = mkState ∅ ∅ [].
Proof.
  apply (funding_insufficient_capital deployed
           (mkSystem idle (mkState ∅ ∅ []) [])).
  - vm_compute. reflexivity.
  - vm_compute. reflexivity.
Defined.

Lemma funding_tops_up_witness :
  fst (ensureContractFunding deployed unfunded) = Normal tt
  /\ Z.of_N (balanceOf (chain (snd (ensureContractFunding deployed unfunded)))
               DAI Fixture.settlement)
     = 0 + parseUnits 10 18.
Proof.
  destruct (funding_tops_up deployed unfunded) as (Hret & Hbal & _).
  - vm_compute. reflexivity.
  - vm_compute. discriminate.
  - reflexivity.
  - vm_compute. discriminate.
  - split; [exact Hret | exact Hbal].
Defined.

(** The same chain, with a wallet that did not deploy the contract. *)
Lemma funding_by_stranger_witness :
  let other :=
    mkDeployment Fixture.stranger Fixture.lending_pool Fixture.cfg in
  let s :=
    mkSystem idle
      (mkState {[ (DAI, Fixture.stranger) := Z.to_N (parseUnits 20 18) ]} ∅ [])
      [] in
  transactions (snd (ensureContractFunding other s))
  = [Tx_approve DAI Fixture.settlement (parseUnits 10 18)]
  /\ balances (chain (snd (ensureContractFunding other s))) = balances (chain s)
  /\ allowance (chain (snd (ensureContractFunding other s))) DAI
       Fixture.stranger Fixture.settlement
     = Z.to_N (parseUnits 10 18).
Proof.
  intros other s.
  destruct (funding_by_stranger other s) as (_ & _ & Hret & Hbal & Hallow).
  - vm_compute. reflexivity.
  - vm_compute. discriminate.
  - vm_compute. discriminate.
  - split; [exact Hret|]. split; [exact Hbal | exact Hallow].
Defined.

Lemma gas_history_bounded_witness :
  let after :=
    self (snd (executeTradingCycle deployed
                 (quotes (Some (Some (parseUnits 20 9)))) capitalised)) in
  (length (gasHistory after) <= 20)%nat
  /\ last (gasHistory after) = Some (1700000000000, gwei (parseUnits 20 9)).
Proof.
  apply (gas_history_bounded deployed (quotes (Some (Some (parseUnits 20 9))))
           capitalised).
  reflexivity.
Defined.

Lemma receipt_records_last_profit_witness :
  profitHistory
    (self (snd (parseTransactionResult (quotes None)
                  [DebugLog "Initial balance" 0; ArbitrageProfit DAI 591;
                   DebugLog "Final balance" 0] capitalised)))
  = [(1700000000000, 591)].
Proof.
  destruct (receipt_records_last_profit (quotes None)
              [DebugLog "Initial balance" 0; ArbitrageProfit DAI 591;
               DebugLog "Final balance" 0] capitalised) as (_ & Hrec & _).
  apply (Hrec [DebugLog "Initial balance" 0] DAI 591%N
              [DebugLog "Final balance" 0]).
  - reflexivity.
  - repeat constructor.
Defined.


End bot_property_runs.

(* --------------------------------------------------------------------- *)
(** ** More on the polling loop                                           *)
(* --------------------------------------------------------------------- *)

Section orchestrator_properties.
Import Orchestrator Loop.

Lemma run_cons s e events : run s (e :: events) = run (step s e) events.
Proof. done. Qed.

Lemma active_count_insert l k p q :
  l !! k = Some p ->
  (length (filter (fun x => is_active x = true) (<[k := q]> l))
   + (if is_active p then 1 else 0)
   = length (filter (fun x => is_active x = true) l)
     + (if is_active q then 1 else 0))%nat.
Proof.
  revert k. induction l as [|a l IH]; intros k Hk; [done|].
  destruct k as [|k].
  - injection Hk as ->. change (<[0%nat := q]> (p :: l)) with (q :: l).
    rewrite !filter_cons.
    destruct (is_active q) eqn:Hq; destruct (is_active p) eqn:Hp;
      repeat case_decide; try congruence; cbn [length]; lia.
  - change (<[S k := q]> (a :: l)) with (a :: <[k := q]> l).
    change (l !! k = Some p) in Hk. specialize (IH k Hk).
    rewrite !filter_cons. destruct (decide (is_active a = true));
      cbn [length]; lia.
Qed.

Lemma active_lookup s k p :
  tasks s !! k = Some p -> is_active p = true -> active s <> [].
Proof.
  intros Hk Hp Hnil.
  pose proof (active_count_insert (tasks s) k p Returned Hk) as Hcount.
  rewrite Hp in Hcount. unfold active in Hnil. rewrite Hnil in Hcount.
  simpl in Hcount. lia.
Qed.

Lemma active_set_phase s k p q :
  tasks s !! k = Some p -> is_active p = true -> is_active q = true ->
  length (filter (fun x => is_active x = true) (<[k := q]> (tasks s)))
  = length (active s).
Proof.
  intros Hk Hp Hq.
  pose proof (active_count_insert (tasks s) k p q Hk) as Hcount.
  rewrite Hp, Hq in Hcount. unfold active. lia.
Qed.

Lemma active_returned s k p :
  tasks s !! k = Some p -> is_active p = true ->
  S (length (filter (fun x => is_active x = true)
               (<[k := Returned]> (tasks s))))
  = length (active s).
Proof.
  intros Hk Hp.
  pose proof (active_count_insert (tasks s) k p Returned Hk) as Hcount.
  rewrite Hp in Hcount. unfold active. simpl in Hcount. lia.
Qed.

Lemma active_insert_live s k p q flag n x :
  tasks s !! k = Some p -> is_active p = true -> is_active q = true ->
  active (mkProcess flag (<[k := q]> (tasks s)) n x) <> [].
Proof.
  intros Hk Hp Hq Hnil.
  pose proof (active_set_phase s k p q Hk Hp Hq) as Hlen.
  pose proof (active_lookup s k p Hk Hp) as Hlive.
  unfold active in Hnil. cbn [tasks] in Hnil. rewrite Hnil in Hlen.
  destruct (active s); [by apply Hlive|discriminate].
Qed.

Lemma step_keeps_live_loop s e :
  (isRunning s = true -> active s <> []) ->
  isRunning (step s e) = true -> active (step s e) <> [].
Proof.
  intros Hinv. unfold step.
  destruct (exited s); [exact Hinv|].
  destruct e as [|k ok|k|k| |].
  - destruct (isRunning s) eqn:Hflag; cbn [negb].
    + intros _. by apply Hinv.
    + unfold start. rewrite Hflag. intros _. unfold active. cbn [tasks].
      rewrite filter_app. intros Hnil. apply app_eq_nil in Hnil as [_ Hnil].
      discriminate.
  - destruct (tasks s !! k) as [[| | |]|] eqn:Hk; try exact Hinv.
    destruct ok; [|discriminate]. unfold loop_head.
    destruct (isRunning s); [|discriminate]. intros _.
    by apply (active_insert_live s k AwaitStartup).
  - destruct (tasks s !! k) as [[| | |]|] eqn:Hk; try exact Hinv.
    unfold set_phase. intros _.
    by apply (active_insert_live s k AwaitCycle).
  - destruct (tasks s !! k) as [[| | |]|] eqn:Hk; try exact Hinv.
    unfold loop_head. destruct (isRunning s); [|discriminate]. intros _.
    by apply (active_insert_live s k AwaitSleep).
  - discriminate.
  - discriminate.
Qed.

(** X23. In every state the process can reach, a raised running flag
    means that some invocation of [start()] has not returned: the flag is
    never left up with no loop behind it, which the restart timer would
    take for a running bot. *)
Theorem running_flag_has_loop events :
  let s := run initial events in
  isRunning s = true -> active s <> [].
Proof.
  assert (forall evs s,
            (isRunning s = true -> active s <> []) ->
            isRunning (run s evs) = true -> active (run s evs) <> [])
    as Hrun.
  { induction evs as [|e evs IH]; intros s Hinv; [done|].
    rewrite run_cons. apply IH. by apply step_keeps_live_loop. }
  apply Hrun. done.
Qed.

Lemma step_keeps_single_loop s e :
  is_stop e = false ->
  (length (active s) <= 1)%nat ->
  (exited s = false -> isRunning s = false -> active s = []) ->
  (length (active (step s e)) <= 1)%nat
  /\ (exited (step s e) = false -> isRunning (step s e) = false ->
      active (step s e) = []).
Proof.
  intros Hstop Hone Hidle. unfold step.
  destruct (exited s) eqn:Hexit.
  { split; [exact Hone|]. intros Hx. congruence. }
  specialize (Hidle eq_refl).
  assert ((length (active s) <= 1)%nat
          /\ (exited s = false -> isRunning s = false -> active s = []))
    as Hkeep by (split; [exact Hone | intros _; exact Hidle]).
  destruct e as [|k ok|k|k| |].
  - destruct (isRunning s) eqn:Hflag; cbn [negb];
      [split; [exact Hone|]; intros _ Hx; congruence|].
    unfold start. rewrite Hflag. unfold active. cbn [tasks isRunning exited].
    rewrite filter_app. specialize (Hidle eq_refl). unfold active in Hidle.
    rewrite Hidle.
    replace (filter (fun p => is_active p = true) [AwaitStartup])
      with [AwaitStartup] by reflexivity.
    split; [cbn [app length]; lia|]. intros _ Hx. discriminate.
  - destruct (tasks s !! k) as [[| | |]|] eqn:Hk; try exact Hkeep.
    pose proof (active_lookup s k AwaitStartup Hk eq_refl) as Hlive.
    destruct (isRunning s) eqn:Hflag;
      [|exfalso; apply Hlive, Hidle; reflexivity].
    destruct ok.
    + unfold loop_head. rewrite Hflag. unfold active.
      cbn [tasks isRunning exited].
      rewrite (active_set_phase s k AwaitStartup AwaitCycle Hk eq_refl eq_refl).
      split; [exact Hone|]. intros _ Hx. discriminate.
    + pose proof (active_returned s k AwaitStartup Hk eq_refl) as Hlen.
      unfold finally, active. cbn [tasks isRunning exited].
      split; [lia|]. intros _ _.
      destruct (filter _ (<[k:=Returned]> (tasks s))); [reflexivity|].
      cbn [length] in Hlen. lia.
  - destruct (tasks s !! k) as [[| | |]|] eqn:Hk; try exact Hkeep.
    pose proof (active_lookup s k AwaitCycle Hk eq_refl) as Hlive.
    destruct (isRunning s) eqn:Hflag;
      [|exfalso; apply Hlive, Hidle; reflexivity].
    unfold set_phase, active. cbn [tasks isRunning exited].
    rewrite (active_set_phase s k AwaitCycle AwaitSleep Hk eq_refl eq_refl).
    split; [exact Hone|]. intros _ Hx. congruence.
  - destruct (tasks s !! k) as [[| | |]|] eqn:Hk; try exact Hkeep.
    pose proof (active_lookup s k AwaitSleep Hk eq_refl) as Hlive.
    destruct (isRunning s) eqn:Hflag;
      [|exfalso; apply Hlive, Hidle; reflexivity].
    unfold loop_head. rewrite Hflag. unfold active.
    cbn [tasks isRunning exited].
    rewrite (active_set_phase s k AwaitSleep AwaitCycle Hk eq_refl eq_refl).
    split; [exact Hone|]. intros _ Hx. discriminate.
  - discriminate.
  - split; [exact Hone|]. intros Hx. discriminate.
Qed.

(** X24. As long as [stop()] is not called, at most one invocation of
    [start()] is alive at any time, so at most one trading loop runs:
    neither the restart timer nor a failed startup check can bring up a
    second one. *)
Theorem single_loop_without_stop events :
  Forall (fun e => is_stop e = false) events ->
  (length (active (run initial events)) <= 1)%nat.
Proof.
  assert (forall evs s,
            Forall (fun e => is_stop e = false) evs ->
            (length (active s) <= 1)%nat ->
            (exited s = false -> isRunning s = false -> active s = []) ->
            (length (active (run s evs)) <= 1)%nat) as Hrun.
  { induction evs as [|e evs IH]; intros s Hevs Hone Hidle; [done|].
    apply Forall_cons in Hevs as [He Hevs]. rewrite run_cons.
    destruct (step_keeps_single_loop s e He Hone Hidle) as [Hone' Hidle'].
    by apply IH. }
  intros Hevs. apply Hrun; [done|simpl; lia|done].
Qed.

Lemma single_loop_without_stop_witness :
  (length (active (run initial
     [TimerFired; StartupDone 0 false; TimerFired; StartupDone 1 true;
      CycleDone 1; TimerFired; SleepDone 1])) <= 1)%nat.
Proof.
  apply single_loop_without_stop. repeat constructor.
Defined.

Lemma running_flag_has_loop_witness :
  active (run initial [TimerFired; StartupDone 0 true; CycleDone 0]) <> [].
Proof.
  apply (running_flag_has_loop [TimerFired; StartupDone 0 true; CycleDone 0]).
  reflexivity.
Defined.

End orchestrator_properties.

(* --------------------------------------------------------------------- *)
(** ** The bot's blob in the contract                                     *)
(* --------------------------------------------------------------------- *)

Section blob_in_session.
Import Chain Contract Observe Trades.

Variable external_call : address -> address -> list byte -> state -> option state.
Variable cfg : config.

#[local] Ltac run :=
  repeat (progress (
    unfold mbind, M_bind, mret, M_ret, require, fail, emit, trace,
      call_balanceOf, token_call, abi_decode, checked_add;
    cbv beta iota)).

(** X25. An authorized session run on the blob the bot encodes for an
    opportunity calls the router of the buying venue and then, on the state
    that call left, the router of the selling venue, both with empty
    calldata; if both succeed it settles with the opportunity's estimated
    profit as minimum profit, and if one reverts it fails with the
    [SwapFailed] reason. The index panic of a blob with too few targets
    cannot occur. *)
Theorem bot_blob_session opportunity blob sender asset amount premium
    initiator st :
  (0 <= Bot.estimatedProfit opportunity <= Z.of_N ABI.UINT256_MAX)%Z ->
  Bot.encodeArbitrageParams opportunity = Bot.Normal blob ->
  sender = pool cfg -> initiator = owner cfg ->
  let buy := router_of (Bot.buyFromDex opportunity) in
  let sell := router_of (Bot.sellToDex opportunity) in
  let session :=
    executeOperation external_call cfg sender asset amount premium initiator
      blob in
  match fold_calls external_call (this cfg) [(buy, []); (sell, [])]
          (add_log (DebugLog "Initial balance" (balanceOf st asset (this cfg)))
             st) with
  | Some st2 =>
      session st []
      = settle cfg asset amount premium
          (Z.to_N (Bot.estimatedProfit opportunity)) st2
          [CallBalanceOf asset (this cfg); Decoded;
           CallTarget 0 buy [] true; CallTarget 1 sell [] true]
  | None => exists tr, session st [] = Fail (Revert "Swap failed") tr
  end.
Proof.
  intros Hv Henc Hs Hi buy sell session.
  destruct (encodeArbitrageParams_decodes opportunity Hv)
    as (blob' & Henc' & Hdec).
  rewrite Henc in Henc'. injection Henc' as <-.
  fold (router_of (Bot.buyFromDex opportunity)) in Hdec.
  fold (router_of (Bot.sellToDex opportunity)) in Hdec.
  fold buy sell in Hdec.
  pose proof (trade_loop_fold external_call cfg [buy; sell] [[]; []] 2 0
                (add_log (DebugLog "Initial balance"
                   (balanceOf st asset (this cfg))) st)
                [CallBalanceOf asset (this cfg); Decoded]) as Hloop.
  cbn [drop zip_with] in Hloop.
  destruct (fold_calls _ _ _ _) as [st2|].
  - unfold session, executeOperation. run.
    rewrite (bool_decide_eq_true_2 _ Hs), (bool_decide_eq_true_2 _ Hi).
    run. rewrite Hdec. run. unfold execute_trades. cbn [length app].
    rewrite Hloop by (simpl; lia). done.
  - destruct Hloop as [tr Hfail]; [simpl; lia|simpl; lia|].
    exists tr. unfold session, executeOperation. run.
    rewrite (bool_decide_eq_true_2 _ Hs), (bool_decide_eq_true_2 _ Hi).
    run. rewrite Hdec. run. unfold execute_trades. cbn [length app].
    by rewrite Hfail.
Qed.

End blob_in_session.

Section blob_in_session_run.
Import Chain Contract Observe Trades Fixture.

(** Every target accepts every call and changes nothing. *)
Lemma bot_blob_session_witness :
  let o :=
    Bot.mkOpportunity Bot.DAI Bot.WETH 100 "uniswap" "sushiswap" 0 0 10 0
      200000 in
  exists blob,
    Bot.encodeArbitrageParams o = Bot.Normal blob
    /\ executeOperation (fun _ _ _ st => Some st) cfg lending_pool token 100 1
         operator blob funded []
       = settle cfg token 100 1 10
           (add_log (DebugLog "Initial balance" 101) funded)
           [CallBalanceOf token settlement; Decoded;
            CallTarget 0 Bot.UNISWAP_V3_ROUTER [] true;
            CallTarget 1 Bot.SUSHISWAP_ROUTER [] true].
Proof.
  intros o. eexists. split.
  - vm_compute. reflexivity.
  - refine (bot_blob_session (fun _ _ _ st => Some st) cfg o _ lending_pool
              token 100 1 operator funded _ _ eq_refl eq_refl).
    + vm_compute. split; discriminate.
    + vm_compute. reflexivity.
Defined.

End blob_in_session_run.
